(** * Constant-delay schedules of breml/cron ([constantdelay.go])

    A shallow embedding of [ConstantDelaySchedule], its three constructors
    [Every], [EveryWithInitial], [EveryWithRandInitial] and its query [Next],
    together with the parts of Go's [time] package and of the Go language
    (64-bit integers, IEEE-754 binary64) that these functions rely on. *)

From Stdlib Require Import ZArith Lia Bool.
From Stdlib Require Import Floats.SpecFloat.

Local Open Scope Z_scope.

(** ** 64-bit signed integers

    Go's [int64] (and [time.Duration], which is an [int64] count of
    nanoseconds) is a [Z] in the range below; arithmetic wraps around silently
    (two's complement). *)
Module Int64.

Definition min : Z := - 2 ^ 63.
Definition max : Z := 2 ^ 63 - 1.

Definition InRange (z : Z) : Prop := min <= z <= max.

(** Two's complement wrap-around of an exact result. *)
Definition wrap (z : Z) : Z := (z + 2 ^ 63) mod 2 ^ 64 - 2 ^ 63.

Definition add (a b : Z) : Z := wrap (a + b).
Definition sub (a b : Z) : Z := wrap (a - b).
Definition mul (a b : Z) : Z := wrap (a * b).

(** Go's [/] and [%] on integers truncate towards zero; a zero divisor
    is a run-time panic, which the callers below make explicit. *)
Definition quot (a b : Z) : Z := wrap (Z.quot a b).
Definition rem (a b : Z) : Z := Z.rem a b.

End Int64.

(** ** IEEE-754 binary64, Go's [float64]

    Built on the axiom-free specification of floating-point arithmetic of the
    standard library, instantiated at precision 53 and maximal exponent 1024,
    with rounding to nearest, ties to even. *)
Module Float64.

Definition prec : Z := 53.
Definition emax : Z := 1024.

Definition float64 : Type := spec_float.

(** The conversion [float64(i)] of an integer. *)
Definition of_int (i : Z) : float64 := binary_normalize prec emax i 0 false.

Definition add (x y : float64) : float64 := SFadd prec emax x y.
Definition div (x y : float64) : float64 := SFdiv prec emax x y.

(** [x > y] *)
Definition gtb (x y : float64) : bool := SFltb y x.

Definition zero : float64 := S754_zero false.

(** The conversion [int64(x)]: the fraction is discarded (truncation
    towards zero). For a value that does not fit (infinities, NaN) the
    result is implementation-specific; amd64 yields the smallest int64. *)
Definition to_int64 (x : float64) : Z :=
  match x with
  | S754_zero _ => 0
  | S754_finite s m e =>
      let a := Z.shiftl (Zpos m) e in
      if a <=? Int64.max then cond_Zopp s a else Int64.min
  | _ => Int64.min
  end.

(** [has_sign sx x]: [x] is neither a zero nor a NaN and its sign bit is
    [sx] (used to state what comparisons with 0 give). *)
Definition has_sign (sx : bool) (x : float64) : Prop :=
  match x with
  | S754_finite s _ _ | S754_infinity s => s = sx
  | _ => False
  end.

(** The number of low bits that rounding to [prec] bits drops from a
    mantissa (used to state what rounding does). *)
Definition dropped (m : positive) : Z :=
  Z.max 0 (Zpos (digits2_pos m) - prec).

End Float64.

(** ** The parts of package [time] that the schedule uses *)
Module time.

(** [time.Duration]: an int64 count of nanoseconds. *)
Definition Duration : Type := Z.

Definition Nanosecond : Duration := 1.
Definition Second : Duration := 1000000000.

Definition minDuration : Duration := Int64.min.
Definition maxDuration : Duration := Int64.max.

(** [d.Nanoseconds()] *)
Definition Nanoseconds (d : Duration) : Z := d.

(** [d.Seconds()]:
<<
    sec := d / Second
    nsec := d % Second
    return float64(sec) + float64(nsec)/1e9
>> *)
Definition Seconds (d : Duration) : Float64.float64 :=
  let sec := Int64.quot d Second in
  let nsec := Int64.rem d Second in
  Float64.add (Float64.of_int sec)
              (Float64.div (Float64.of_int nsec) (Float64.of_int 1000000000)).

(** [time.Time]: an instant, as the number of nanoseconds elapsed since the
    Unix epoch (negative before 1970). Go stores seconds and nanoseconds
    apart, with a range of seconds far beyond what an int64 of nanoseconds
    spans, so the instant is an unbounded [Z] here; the monotonic clock
    reading that [time.Now] attaches is taken to advance with the wall
    clock, so that differences of instants are differences of wall-clock
    readings. *)
Definition Time : Type := Z.

(** [time.Unix(sec, nsec)] *)
Definition Unix (sec nsec : Z) : Time := sec * Second + nsec.

(** [t.Nanosecond()]: the nanosecond offset within the second, in
    [0, 999999999], also for instants before the epoch. *)
Definition Nanosecond_of (t : Time) : Z := t mod Second.

(** [t.Truncate(time.Second)]: the start of the second [t] lies in. *)
Definition Truncate (t : Time) : Time := t - t mod Second.

(** [t.Add(d)] *)
Definition Add (t : Time) (d : Duration) : Time := t + d.

(** [t.Sub(u)]: the difference, saturated to the range of [Duration]. *)
Definition Sub (t u : Time) : Duration :=
  if t - u <? minDuration then minDuration
  else if maxDuration <? t - u then maxDuration
  else t - u.

End time.

(** ** The schedule *)
Module cron.

Import time.

Record ConstantDelaySchedule : Type := mkSchedule {
  Delay : Duration;
  StartTime : Time
}.

(** A call either returns or panics. *)
Variant outcome (A : Type) : Type :=
  | Returns (a : A)
  | PanicDivideByZero.
Arguments Returns {A} a.
Arguments PanicDivideByZero {A}.

(** [Every(duration)] *)
Definition Every (duration : Duration) : ConstantDelaySchedule :=
  let duration := if duration <? Second then Second else duration in
  {| Delay := Int64.sub duration (Int64.rem (Nanoseconds duration) Second);
     StartTime := Unix 0 0 |}.

(** [EveryWithInitial(duration, initial)]; [now] is what [time.Now()]
    returns during the call. *)
Definition EveryWithInitial (duration initial : Duration) (now : Time)
  : ConstantDelaySchedule :=
  let t := now in
  let cds := Every duration in
  {| Delay := Delay cds;
     StartTime :=
       Add t (Int64.sub initial (Int64.rem (Nanosecond_of t) Second)) |}.

(** [int64(duration.Seconds())], the divisor of the random draw in
    [EveryWithRandInitial]. *)
Definition randDivisor (duration : Duration) : Z :=
  Float64.to_int64 (Seconds duration).

(** [EveryWithRandInitial(duration)]; [now] is what [time.Now()] returns
    and [int63] what [r.Int63()] draws during the call, a non-negative
    int64 (the generator is seeded from the clock, so any draw can come).
    The integer remainder panics on a zero divisor. *)
Definition EveryWithRandInitial (duration : Duration) (now : Time) (int63 : Z)
  : outcome ConstantDelaySchedule :=
  let t := now in
  let cds := Every duration in
  let n := randDivisor duration in
  if n =? 0 then PanicDivideByZero
  else
    Returns
      {| Delay := Delay cds;
         StartTime :=
           Add t (Int64.sub
                    (Int64.sub (Delay cds)
                               (Int64.rem (Nanosecond_of t) Second))
                    (Int64.mul (Int64.rem int63 n) Second)) |}.

(** [schedule.Next(t)] *)
Definition Next (schedule : ConstantDelaySchedule) (t : Time) : Time :=
  if Float64.gtb (Seconds (Sub (StartTime schedule) t)) Float64.zero
  then StartTime schedule
  else Add t (Int64.sub (Delay schedule)
                        (Int64.mul (Nanosecond_of t) Nanosecond)).

(** [truncated_interval requested D]: [D] is the requested duration, or
    one second if that is more, with its sub-second part cut off: at least
    a second, a whole number of seconds, never above what it is cut from
    and less than a second below it. *)
Definition truncated_interval (requested D : Duration) : Prop :=
  Second <= D /\ D mod Second = 0
  /\ D <= Z.max requested Second < D + Second.

End cron.

Import time cron.

(** ** Facts on 64-bit integers *)
Module Int64Facts.

Lemma wrap_id (z : Z) : Int64.InRange z -> Int64.wrap z = z.
Proof.
  unfold Int64.InRange, Int64.wrap, Int64.min, Int64.max. intros H.
  rewrite Z.mod_small; lia.
Qed.

(** The pieces a duration is cut into: whole seconds and the rest. *)
Lemma quot_rem_Second (d : Z) :
  Int64.InRange d ->
  Int64.quot d 1000000000 = Z.quot d 1000000000
  /\ d = 1000000000 * Z.quot d 1000000000 + Z.rem d 1000000000
  /\ (0 <= d -> 0 <= Z.rem d 1000000000 < 1000000000)
  /\ (d <= 0 -> -1000000000 < Z.rem d 1000000000 <= 0).
Proof.
  intros H. unfold Int64.InRange, Int64.min, Int64.max in H.
  pose proof (Z.quot_rem' d 1000000000) as Hqr.
  assert (Hp : 0 <= d -> 0 <= Z.rem d 1000000000 < 1000000000)
    by (intros; apply Z.rem_bound_pos; lia).
  assert (Hn : d <= 0 -> -1000000000 < Z.rem d 1000000000 <= 0)
    by (intros; apply (Z.rem_bound_pos_neg d 1000000000); lia).
  split; [ | auto ].
  unfold Int64.quot. apply wrap_id.
  unfold Int64.InRange, Int64.min, Int64.max. lia.
Qed.

End Int64Facts.

(** ** Facts on binary64 arithmetic *)
Module Float64Facts.

Import Float64.

(** The number of binary digits brackets the number. *)
Lemma digits2_pos_bounds (p : positive) :
  2 ^ (Zpos (digits2_pos p) - 1) <= Zpos p < 2 ^ Zpos (digits2_pos p).
Proof.
  induction p as [p IH | p IH | ]; cbn [digits2_pos].
  - rewrite Pos2Z.inj_succ.
    replace (Z.succ (Zpos (digits2_pos p)) - 1)
      with (Z.succ (Zpos (digits2_pos p) - 1)) by lia.
    rewrite !Z.pow_succ_r by lia. lia.
  - rewrite Pos2Z.inj_succ.
    replace (Z.succ (Zpos (digits2_pos p)) - 1)
      with (Z.succ (Zpos (digits2_pos p) - 1)) by lia.
    rewrite !Z.pow_succ_r by lia. lia.
  - cbn. lia.
Qed.

Lemma digits2_pos_le (p : positive) (k : Z) :
  Zpos p < 2 ^ k -> Zpos (digits2_pos p) <= k.
Proof.
  intros H. destruct (digits2_pos_bounds p) as [Hlo _].
  destruct (Z_lt_le_dec k 0) as [Hk | Hk].
  - rewrite Z.pow_neg_r in H by assumption. lia.
  - assert (Hlt : 2 ^ (Zpos (digits2_pos p) - 1) < 2 ^ k) by lia.
    apply Z.pow_lt_mono_r_iff in Hlt; lia.
Qed.

Lemma digits2_pos_ge (p : positive) (k : Z) :
  0 <= k -> 2 ^ k <= Zpos p -> k + 1 <= Zpos (digits2_pos p).
Proof.
  intros Hk H. destruct (digits2_pos_bounds p) as [_ Hhi].
  assert (Hlt : 2 ^ k < 2 ^ Zpos (digits2_pos p)) by lia.
  apply Z.pow_lt_mono_r_iff in Hlt; lia.
Qed.

(** One step of right shift halves a non-negative mantissa. *)
Lemma shr_1_m (r : shr_record) :
  0 <= shr_m r -> shr_m (shr_1 r) = shr_m r / 2.
Proof.
  destruct r as [m r s]; cbn [shr_m]; intros Hm.
  destruct m as [ | [p | p | ] | p ]; try lia; cbn [shr_1 shr_m].
  - reflexivity.
  - apply (Z.div_unique _ 2 _ 1); lia.
  - apply (Z.div_unique _ 2 _ 0); lia.
  - reflexivity.
Qed.

Lemma pow2_xO (n : positive) : 2 ^ Zpos n~0 = 2 ^ Zpos n * 2 ^ Zpos n.
Proof. rewrite <- Z.pow_add_r by lia. f_equal. lia. Qed.

Lemma pow2_xI (n : positive) : 2 ^ Zpos n~1 = 2 * (2 ^ Zpos n * 2 ^ Zpos n).
Proof.
  rewrite <- Z.pow_add_r, <- Z.pow_succ_r by lia. f_equal. lia.
Qed.

Lemma iter_shr_1_m (n : positive) (r : shr_record) :
  0 <= shr_m r -> shr_m (iter_pos shr_1 n r) = shr_m r / 2 ^ Zpos n.
Proof.
  revert r; induction n as [n IH | n IH | ]; intros r Hr; cbn [iter_pos].
  - assert (H1 : 0 <= shr_m (shr_1 r))
      by (rewrite shr_1_m by assumption; apply Z.div_pos; lia).
    assert (H2 : 0 <= shr_m (iter_pos shr_1 n (shr_1 r)))
      by (rewrite IH by assumption; apply Z.div_pos; lia).
    rewrite IH, IH, shr_1_m by assumption.
    rewrite !Z.div_div by lia.
    rewrite pow2_xI. reflexivity.
  - assert (H2 : 0 <= shr_m (iter_pos shr_1 n r))
      by (rewrite IH by assumption; apply Z.div_pos; lia).
    rewrite IH, IH by assumption.
    rewrite !Z.div_div by lia.
    rewrite pow2_xO. reflexivity.
  - rewrite shr_1_m by assumption. reflexivity.
Qed.

Lemma shr_record_of_loc_m (m : Z) (l : location) :
  shr_m (shr_record_of_loc m l) = m.
Proof. destruct l as [ | [ | | ] ]; reflexivity. Qed.

Lemma shr_fexp_pos (m : positive) (e : Z) (l : location) :
  -1074 <= e ->
  exists r, shr_fexp prec emax (Zpos m) e l = (r, e + dropped m)
            /\ shr_m r = Zpos m / 2 ^ dropped m.
Proof.
  intros He. unfold shr_fexp, fexp, emin, Zdigits2, dropped, shr, prec, emax.
  set (d := Zpos (digits2_pos m)).
  destruct (Z_le_gt_dec (d - 53) 0) as [Hd | Hd].
  - replace (Z.max 0 (d - 53)) with 0 by lia.
    exists (shr_record_of_loc (Zpos m) l).
    rewrite shr_record_of_loc_m, Z.div_1_r, Z.add_0_r.
    split; [ | reflexivity ].
    destruct (Z.max (d + e - 53) (3 - 1024 - 53) - e) eqn:E; try reflexivity; lia.
  - replace (Z.max 0 (d - 53)) with (d - 53) by lia.
    replace (Z.max (d + e - 53) (3 - 1024 - 53) - e) with (d - 53) by lia.
    destruct (d - 53) as [ | p | p ] eqn:E; try lia.
    exists (iter_pos shr_1 p (shr_record_of_loc (Zpos m) l)).
    split; [ reflexivity | ].
    rewrite iter_shr_1_m; rewrite shr_record_of_loc_m; [ reflexivity | lia ].
Qed.

Lemma round_nearest_even_bounds (m : Z) (l : location) :
  m <= round_nearest_even m l <= m + 1.
Proof.
  destruct l as [ | [ | | ] ]; cbn [round_nearest_even];
    try destruct (Z.even m); lia.
Qed.

(** What is left of a mantissa after dropping bits has 53 bits at most and
    is not zero. *)
Lemma kept_bounds (m : positive) :
  1 <= Zpos m / 2 ^ dropped m < 2 ^ 53.
Proof.
  unfold dropped, prec. destruct (digits2_pos_bounds m) as [Hlo Hhi].
  set (d := Zpos (digits2_pos m)) in *.
  destruct (Z_le_gt_dec (d - 53) 0) as [Hd | Hd].
  - replace (Z.max 0 (d - 53)) with 0 by lia.
    rewrite Z.div_1_r. split; [ lia | ].
    assert (2 ^ d <= 2 ^ 53) by (apply Z.pow_le_mono_r; lia). lia.
  - replace (Z.max 0 (d - 53)) with (d - 53) by lia.
    assert (Hp : 0 < 2 ^ (d - 53)) by (apply Z.pow_pos_nonneg; lia).
    split.
    + apply Z.div_le_lower_bound; [ assumption | ].
      assert (2 ^ (d - 53) <= 2 ^ (d - 1)) by (apply Z.pow_le_mono_r; lia).
      lia.
    + apply Z.div_lt_upper_bound; [ assumption | ].
      rewrite <- Z.pow_add_r by lia.
      replace (d - 53 + 53) with d by lia. assumption.
Qed.

Lemma dropped_nonneg (m : positive) : 0 <= dropped m.
Proof. unfold dropped; lia. Qed.

(** Rounding a positive mantissa [m] at exponent [e] to nearest: the result
    is a mantissa [m'] at an exponent [e'] (an infinity when [e'] is
    beyond the range) whose value is that of the kept part of [m], or of its
    successor. *)
Lemma binary_round_aux_pos (sx : bool) (m : positive) (e : Z) (l : location) :
  -1074 <= e ->
  exists (m' : positive) (e' k : Z),
    binary_round_aux prec emax sx (Zpos m) e l
      = (if e' <=? 971 then S754_finite sx m' e' else S754_infinity sx)
    /\ e + dropped m <= e' <= e + dropped m + 1
    /\ Zpos m / 2 ^ dropped m <= k <= Zpos m / 2 ^ dropped m + 1
    /\ Zpos m' * 2 ^ (e' - e) = k * 2 ^ dropped m
    /\ Zpos m' < 2 ^ 53.
Proof.
  intros He. unfold binary_round_aux.
  destruct (shr_fexp_pos m e l He) as (r & E1 & Hr). rewrite E1.
  pose proof (round_nearest_even_bounds (shr_m r) (loc_of_shr_record r)) as Hk.
  pose proof (kept_bounds m) as Hm.
  pose proof (dropped_nonneg m) as Hd.
  destruct (round_nearest_even (shr_m r) (loc_of_shr_record r))
    as [ | pk | pk ]; rewrite Hr in Hk; try lia.
  destruct (shr_fexp_pos pk (e + dropped m) loc_Exact) as (r2 & E2 & Hr2);
    [ lia | ].
  rewrite E2, Hr2. change (Z.sub emax prec) with 971.
  pose proof (kept_bounds pk) as Hpk.
  assert (Hdp : 0 <= dropped pk <= 1).
  { unfold dropped, prec. assert (Zpos (digits2_pos pk) <= 54); [ | lia ].
    apply digits2_pos_le. lia. }
  destruct (Z.pos pk / 2 ^ dropped pk) as [ | m' | m' ] eqn:Em'; try lia.
  exists m', (e + dropped m + dropped pk), (Zpos pk).
  split; [ reflexivity | ].
  split; [ lia | ]. split; [ lia | ]. split; [ | lia ].
  replace (e + dropped m + dropped pk - e) with (dropped m + dropped pk) by lia.
  rewrite Z.pow_add_r by lia.
  assert (Hcase : dropped pk = 0 \/ dropped pk = 1) by lia.
  destruct Hcase as [H0 | H1].
  - rewrite H0 in *. rewrite Z.div_1_r in Em'. rewrite <- Em'. lia.
  - rewrite H1 in *.
    assert (Hpk53 : Zpos pk = 2 ^ 53).
    { unfold dropped, prec in H1.
      pose proof (digits2_pos_bounds pk) as [Hlo _].
      assert (2 ^ 53 <= 2 ^ (Zpos (digits2_pos pk) - 1))
        by (apply Z.pow_le_mono_r; lia).
      lia. }
    rewrite Hpk53 in *.
    change (2 ^ 53 / 2 ^ 1) with (2 ^ 52) in Em'. rewrite <- Em'.
    change (2 ^ 53) with (2 ^ 52 * 2 ^ 1). lia.
Qed.

(** A mantissa of 53 bits at most passes rounding unchanged when nothing
    was lost before. *)
Lemma binary_round_aux_exact (sx : bool) (m : positive) (e : Z) :
  -1074 <= e -> Zpos m < 2 ^ 53 ->
  binary_round_aux prec emax sx (Zpos m) e loc_Exact
    = (if e <=? 971 then S754_finite sx m e else S754_infinity sx).
Proof.
  intros He Hm. unfold binary_round_aux.
  assert (Hd : dropped m = 0).
  { unfold dropped, prec. pose proof (digits2_pos_le m 53 Hm). lia. }
  assert (E : shr_fexp prec emax (Zpos m) e loc_Exact
              = ({| shr_m := Zpos m; shr_r := false; shr_s := false |}, e)).
  { unfold shr_fexp, fexp, emin, Zdigits2, shr, prec, emax.
    unfold dropped, prec in Hd.
    destruct (Z.max (Zpos (digits2_pos m) + e - 53) (3 - 1024 - 53) - e)
      eqn:E; try reflexivity; lia. }
  rewrite E. cbn [shr_m loc_of_shr_record round_nearest_even]. rewrite E.
  reflexivity.
Qed.

Lemma iter_xO (k p : positive) : Zpos (Pos.iter xO p k) = Zpos p * 2 ^ Zpos k.
Proof.
  induction k as [ | k IH ] using Pos.peano_ind.
  - cbn. lia.
  - rewrite Pos.iter_succ, Pos2Z.inj_succ, Z.pow_succ_r by lia.
    rewrite Pos2Z.inj_xO, IH. lia.
Qed.

(** Alignment to a smaller exponent is exact and never goes below the
    exponent asked for. *)
Lemma shl_align_spec (m : positive) (e e' : Z) :
  let '(mz, ez) := shl_align m e e' in
  ez = Z.min e e' /\ Zpos mz = Zpos m * 2 ^ (e - ez).
Proof.
  unfold shl_align. destruct (e' - e) as [ | d | d ] eqn:E.
  - split; [ lia | ]. rewrite Z.sub_diag. cbn. lia.
  - split; [ lia | ]. rewrite Z.sub_diag. cbn. lia.
  - split; [ lia | ]. rewrite iter_xO. f_equal. f_equal. lia.
Qed.

Lemma binary_round_aux_sign (sx : bool) (m : positive) (e : Z) (l : location) :
  -1074 <= e -> has_sign sx (binary_round_aux prec emax sx (Zpos m) e l).
Proof.
  intros He.
  destruct (binary_round_aux_pos sx m e l He) as (m' & e' & k & E & _).
  rewrite E. destruct (e' <=? 971); reflexivity.
Qed.

Lemma binary_round_sign (sx : bool) (m : positive) (e : Z) :
  -1074 <= e -> has_sign sx (binary_round prec emax sx m e).
Proof.
  intros He. unfold binary_round.
  pose proof (shl_align_spec m e (fexp prec emax (Zpos (digits2_pos m) + e)))
    as H.
  destruct (shl_align m e (fexp prec emax (Zpos (digits2_pos m) + e)))
    as [mz ez].
  destruct H as [Hez _].
  apply binary_round_aux_sign.
  unfold fexp, emin, prec, emax in Hez. lia.
Qed.

(** Converting an integer below 2^53 is exact: the mantissa is the integer
    shifted left until it has 53 bits. *)
Lemma binary_round_int (sx : bool) (p : positive) :
  Zpos p < 2 ^ 53 ->
  exists m : positive,
    binary_round prec emax sx p 0
      = S754_finite sx m (Zpos (digits2_pos p) - 53)
    /\ Zpos m = Zpos p * 2 ^ (53 - Zpos (digits2_pos p))
    /\ 2 ^ 52 <= Zpos m < 2 ^ 53.
Proof.
  intros Hp. unfold binary_round.
  pose proof (digits2_pos_bounds p) as [Hlo Hhi].
  pose proof (digits2_pos_le p 53 Hp) as Hd.
  set (d := Zpos (digits2_pos p)) in *.
  assert (Hd1 : 1 <= d) by (unfold d; lia).
  pose proof (shl_align_spec p 0 (fexp prec emax (d + 0))) as H.
  destruct (shl_align p 0 (fexp prec emax (d + 0))) as [mz ez].
  destruct H as [Hez Hmz].
  assert (Eez : ez = d - 53) by (unfold fexp, emin, prec, emax in Hez; lia).
  clear Hez. subst ez. replace (0 - (d - 53)) with (53 - d) in Hmz by lia.
  assert (Hpow : 2 ^ d * 2 ^ (53 - d) = 2 ^ 53)
    by (rewrite <- Z.pow_add_r by lia; f_equal; lia).
  assert (Hpow' : 2 ^ (d - 1) * 2 ^ (53 - d) = 2 ^ 52)
    by (rewrite <- Z.pow_add_r by lia; f_equal; lia).
  assert (Hpos : 0 < 2 ^ (53 - d)) by (apply Z.pow_pos_nonneg; lia).
  assert (Hb : 2 ^ 52 <= Zpos mz < 2 ^ 53).
  { rewrite Hmz, <- Hpow, <- Hpow'. split.
    - apply Z.mul_le_mono_nonneg_r; lia.
    - apply Z.mul_lt_mono_pos_r; lia. }
  exists mz. rewrite binary_round_aux_exact by lia.
  replace (d - 53 <=? 971) with true by (symmetry; apply Z.leb_le; lia).
  auto.
Qed.

Lemma of_int_pos (p : positive) :
  Zpos p < 2 ^ 53 ->
  exists m : positive,
    of_int (Zpos p) = S754_finite false m (Zpos (digits2_pos p) - 53)
    /\ Zpos m = Zpos p * 2 ^ (53 - Zpos (digits2_pos p))
    /\ 2 ^ 52 <= Zpos m < 2 ^ 53.
Proof. apply (binary_round_int false). Qed.

Lemma of_int_neg (p : positive) :
  Zpos p < 2 ^ 53 ->
  exists m : positive,
    of_int (Zneg p) = S754_finite true m (Zpos (digits2_pos p) - 53)
    /\ Zpos m = Zpos p * 2 ^ (53 - Zpos (digits2_pos p))
    /\ 2 ^ 52 <= Zpos m < 2 ^ 53.
Proof. apply (binary_round_int true). Qed.

(** The constant [1e9] as a float. *)
Lemma of_int_1e9 :
  of_int 1000000000 = S754_finite false 8388608000000000 (-23).
Proof. reflexivity. Qed.

Lemma digits2_pos_53 (m : positive) :
  2 ^ 52 <= Zpos m < 2 ^ 53 -> digits2_pos m = 53%positive.
Proof.
  intros [Hlo Hhi].
  pose proof (digits2_pos_le m 53 Hhi).
  pose proof (digits2_pos_ge m 52 ltac:(lia) Hlo).
  lia.
Qed.

(** The integer division at the heart of a float division by [1e9]. *)
Lemma SFdiv_core_1e9 (m : positive) (e : Z) :
  2 ^ 52 <= Zpos m < 2 ^ 53 -> -52 <= e <= 0 ->
  SFdiv_core_binary prec emax (Zpos m) e 8388608000000000 (-23)
  = (Zpos m * 2 ^ 53 / 8388608000000000, e - 30,
     new_location 8388608000000000 (Zpos m * 2 ^ 53 mod 8388608000000000)).
Proof.
  intros Hm He. unfold SFdiv_core_binary, Zdigits2.
  rewrite (digits2_pos_53 m Hm).
  change (digits2_pos 8388608000000000) with 53%positive.
  cbv zeta.
  replace (Z.min (fexp prec emax (53 + e - (53 + -23))) (e - -23))
    with (e - 30) by (unfold fexp, emin, prec, emax; lia).
  replace (e - -23 - (e - 30)) with 53 by lia.
  cbv iota beta. rewrite Z.shiftl_mul_pow2 by lia.
  unfold Z.div, Z.modulo.
  destruct (Z.div_eucl (Zpos m * 2 ^ 53) 8388608000000000) as [q r].
  reflexivity.
Qed.

(** Dividing a normalised float of small exponent by [1e9]: the result is
    finite, of the same sign, and within two units in the last place of the
    integer quotient [q]. *)
Lemma div_1e9 (sx : bool) (m : positive) (e : Z) :
  2 ^ 52 <= Zpos m < 2 ^ 53 -> -52 <= e <= 0 ->
  exists (m' : positive) (e' : Z),
    div (S754_finite sx m e) (of_int 1000000000) = S754_finite sx m' e'
    /\ e - 30 <= e' <= e - 28
    /\ Zpos m * 2 ^ 53 / 8388608000000000 - 1
       <= Zpos m' * 2 ^ (e' - (e - 30))
       <= Zpos m * 2 ^ 53 / 8388608000000000 + 2
    /\ Zpos m' < 2 ^ 53.
Proof.
  intros Hm He. rewrite of_int_1e9. unfold div, SFdiv.
  rewrite (SFdiv_core_1e9 m e Hm He).
  set (q := Zpos m * 2 ^ 53 / 8388608000000000).
  assert (Hq : 2 ^ 52 <= q < 2 ^ 54).
  { unfold q. split.
    - apply Z.div_le_lower_bound; lia.
    - apply Z.div_lt_upper_bound; lia. }
  destruct q as [ | pq | pq ] eqn:Eq; try lia.
  destruct (binary_round_aux_pos (xorb sx false) pq (e - 30)
              (new_location 8388608000000000
                 (Zpos m * 2 ^ 53 mod 8388608000000000)))
    as (m' & e' & k & E & He' & Hk & HV & Hm'); [ lia | ].
  rewrite E, xorb_false_r.
  assert (Hdq : 0 <= dropped pq <= 1).
  { unfold dropped, prec.
    assert (Zpos (digits2_pos pq) <= 54) by (apply digits2_pos_le; lia).
    lia. }
  replace (e' <=? 971) with true by (symmetry; apply Z.leb_le; lia).
  exists m', e'. split; [ reflexivity | ]. split; [ lia | ].
  split; [ | assumption ].
  rewrite HV.
  assert (Hcase : dropped pq = 0 \/ dropped pq = 1) by lia.
  destruct Hcase as [H0 | H1].
  - rewrite H0 in *. rewrite Z.div_1_r in Hk. lia.
  - rewrite H1 in *. change (2 ^ 1) with 2 in *.
    pose proof (Z.div_mod (Zpos pq) 2 ltac:(lia)).
    pose proof (Z.mod_pos_bound (Zpos pq) 2 ltac:(lia)).
    lia.
Qed.

Lemma of_int_nonzero (z : Z) :
  z <> 0 -> Z.abs z < 2 ^ 53 ->
  exists m : positive,
    of_int z = S754_finite (z <? 0) m (Zdigits2 z - 53)
    /\ Zpos m = Z.abs z * 2 ^ (53 - Zdigits2 z)
    /\ 2 ^ 52 <= Zpos m < 2 ^ 53.
Proof.
  intros Hz Ha. destruct z as [ | p | p ]; [ lia | | ].
  - apply of_int_pos. exact Ha.
  - apply of_int_neg. exact Ha.
Qed.

Lemma Zdigits2_range (z : Z) (k : Z) :
  z <> 0 -> Z.abs z < 2 ^ k -> 1 <= Zdigits2 z <= k.
Proof.
  destruct z as [ | p | p ]; intros Hz Hk; [ lia | | ];
    (split; [ cbn; lia | apply digits2_pos_le; exact Hk ]).
Qed.

(** Adding two finite floats of the same sign gives that sign. *)
Lemma add_same_sign (sx : bool) (m1 m2 : positive) (e1 e2 : Z) :
  -1074 <= e1 -> -1074 <= e2 ->
  has_sign sx (add (S754_finite sx m1 e1) (S754_finite sx m2 e2)).
Proof.
  intros H1 H2. unfold add, SFadd.
  set (a := fst (shl_align m1 e1 (Z.min e1 e2))).
  set (b := fst (shl_align m2 e2 (Z.min e1 e2))).
  destruct sx; cbn [cond_Zopp Z.opp Z.add binary_normalize];
    apply binary_round_sign; lia.
Qed.

Lemma gtb_zero_of_sign (sx : bool) (x : float64) :
  has_sign sx x -> gtb x zero = negb sx.
Proof.
  destruct x as [ s | s | | s m e ]; cbn [has_sign]; intros H;
    try contradiction; subst s; destruct sx; reflexivity.
Qed.

(** The fraction of a second, as a float: strictly below [1 - 2^-30]. *)
Lemma div_1e9_frac (z : Z) :
  z <> 0 -> Z.abs z < 1000000000 ->
  exists (my : positive) (ey : Z),
    div (of_int z) (of_int 1000000000) = S754_finite (z <? 0) my ey
    /\ -82 <= ey <= -51
    /\ Zpos my * 2 ^ 30 < (2 ^ 30 - 1) * 2 ^ (- ey).
Proof.
  intros Hz Hlt.
  destruct (of_int_nonzero z Hz ltac:(lia)) as (m & E & Hmeq & Hm).
  pose proof (Zdigits2_range z 30 Hz ltac:(lia)) as Hdz.
  set (dz := Zdigits2 z) in *.
  destruct (div_1e9 (z <? 0) m (dz - 53) Hm ltac:(lia))
    as (my & ey & E' & Hey & HV & Hmy).
  exists my, ey. rewrite E. split; [ exact E' | ]. split; [ lia | ].
  set (q := Zpos m * 2 ^ 53 / 8388608000000000) in *.
  set (A := 2 ^ (53 - dz)) in *.
  set (F := 2 ^ (ey - (dz - 53 - 30))) in *.
  set (G := 2 ^ (- ey)).
  assert (HA : 0 < A) by (apply Z.pow_pos_nonneg; lia).
  assert (HF : 0 < F) by (apply Z.pow_pos_nonneg; lia).
  assert (HG : 0 < G) by (apply Z.pow_pos_nonneg; lia).
  assert (HGF : G * F = A * 2 ^ 30).
  { unfold G, F, A. rewrite <- !Z.pow_add_r by lia. f_equal. lia. }
  assert (HAge : 2 ^ 23 <= A).
  { unfold A. apply Z.pow_le_mono_r; lia. }
  assert (Hq : q * 8388608000000000 <= Zpos m * 2 ^ 53).
  { unfold q. rewrite Z.mul_comm. apply Z.mul_div_le. lia. }
  assert (HX : Zpos m <= 999999999 * A).
  { rewrite Hmeq. apply Z.mul_le_mono_nonneg_r; lia. }
  assert (HVlt : Zpos my * F * 2 ^ 30 < (2 ^ 30 - 1) * (G * F)).
  { rewrite HGF. lia. }
  apply (Z.mul_lt_mono_pos_r F); [ exact HF | ]. lia.
Qed.

(** Adding two finite floats of the same sign rounds the sum of the
    aligned mantissas. *)
Lemma add_same_sign_eq (sx : bool) (m1 m2 : positive) (e1 e2 : Z) :
  exists M : positive,
    add (S754_finite sx m1 e1) (S754_finite sx m2 e2)
      = binary_round prec emax sx M (Z.min e1 e2)
    /\ Zpos M = Zpos m1 * 2 ^ (e1 - Z.min e1 e2)
                + Zpos m2 * 2 ^ (e2 - Z.min e1 e2).
Proof.
  unfold add, SFadd.
  pose proof (shl_align_spec m1 e1 (Z.min e1 e2)) as H1.
  pose proof (shl_align_spec m2 e2 (Z.min e1 e2)) as H2.
  destruct (shl_align m1 e1 (Z.min e1 e2)) as [a ea].
  destruct (shl_align m2 e2 (Z.min e1 e2)) as [b eb].
  destruct H1 as [Ea Ha], H2 as [Eb Hb]. cbn [fst].
  exists (a + b)%positive. split.
  - destruct sx; reflexivity.
  - rewrite Pos2Z.inj_add, Ha, Hb.
    replace ea with (Z.min e1 e2) by lia.
    replace eb with (Z.min e1 e2) by lia. reflexivity.
Qed.

(** A mantissa of 53 bits or more is not shifted left before rounding. *)
Lemma binary_round_large (sx : bool) (M : positive) (e : Z) :
  2 ^ 52 <= Zpos M ->
  binary_round prec emax sx M e
    = binary_round_aux prec emax sx (Zpos M) e loc_Exact.
Proof.
  intros HM. unfold binary_round, shl_align.
  pose proof (digits2_pos_ge M 52 ltac:(lia) HM) as Hd.
  destruct (fexp prec emax (Zpos (digits2_pos M) + e) - e) eqn:E;
    try reflexivity.
  unfold fexp, emin, prec, emax in E. lia.
Qed.

(** Whole seconds plus a fraction below one: the sum, converted back to an
    integer, is the number of seconds or one more, and is the number of
    seconds when that is small and the fraction not too close to one. *)
Lemma add_int_frac (sx : bool) (sec : Z) (ms my : positive) (es ey : Z) :
  1 <= sec < 2 ^ 34 ->
  Zpos ms = sec * 2 ^ (- es) -> 2 ^ 52 <= Zpos ms < 2 ^ 53 ->
  -52 <= es <= 0 -> -1074 <= ey <= 0 ->
  Zpos my < 2 ^ (- ey) ->
  exists N : Z,
    to_int64 (add (S754_finite sx ms es) (S754_finite sx my ey))
      = cond_Zopp sx N
    /\ sec <= N <= sec + 1
    /\ (sec < 2 ^ 23 -> Zpos my * 2 ^ 30 < (2 ^ 30 - 1) * 2 ^ (- ey) ->
        N = sec).
Proof.
  intros Hsec Hms Hmsb Hes Hey Hmy.
  destruct (add_same_sign_eq sx ms my es ey) as (M & E & HM). rewrite E.
  set (ez := Z.min es ey) in *.
  assert (Hez : -1074 <= ez <= 0) by (unfold ez; lia).
  set (T := 2 ^ (- ez)).
  assert (HT : 0 < T) by (apply Z.pow_pos_nonneg; lia).
  assert (Ha : Zpos ms * 2 ^ (es - ez) = sec * T).
  { rewrite Hms, <- Z.mul_assoc, <- Z.pow_add_r by (unfold ez; lia).
    unfold T. do 2 f_equal. lia. }
  set (b := Zpos my * 2 ^ (ey - ez)) in *.
  assert (Hb : 0 < b < T).
  { unfold b. split.
    - apply Z.mul_pos_pos; [ lia | apply Z.pow_pos_nonneg; unfold ez; lia ].
    - replace T with (2 ^ (- ey) * 2 ^ (ey - ez)).
      + apply Z.mul_lt_mono_pos_r;
          [ apply Z.pow_pos_nonneg; unfold ez; lia | exact Hmy ].
      + unfold T. rewrite <- Z.pow_add_r by (unfold ez; lia). f_equal. lia. }
  rewrite Ha in HM.
  assert (HT1 : 1 <= T) by lia.
  assert (HMlo : 2 ^ 52 <= Zpos M).
  { assert (Zpos ms <= sec * T); [ | lia ].
    rewrite <- Ha.
    assert (1 <= 2 ^ (es - ez))
      by (apply (Z.pow_le_mono_r 2 0); unfold ez; lia).
    nia. }
  rewrite (binary_round_large sx M ez HMlo).
  destruct (binary_round_aux_pos sx M ez loc_Exact ltac:(lia))
    as (m' & e' & k & E2 & He' & Hk & HW & Hm').
  rewrite E2. clear E E2.
  pose proof (dropped_nonneg M) as Hn0.
  (* how many bits the sum has *)
  assert (Hdig : forall j, 0 <= j -> sec + 1 <= 2 ^ j ->
                           dropped M <= j - 53 - ez).
  { intros j Hj Hsj.
    assert (HMhi : Zpos M < 2 ^ (j - ez)).
    { replace (j - ez) with (j + - ez) by lia.
      rewrite Z.pow_add_r by lia. fold T. nia. }
    pose proof (digits2_pos_le M _ HMhi).
    pose proof (digits2_pos_ge M 52 ltac:(lia) HMlo).
    unfold dropped, prec. lia. }
  assert (Hn34 : dropped M <= -19 - ez) by (apply (Hdig 34); lia).
  set (n := dropped M) in *.
  set (U := 2 ^ (- ez - n)).
  assert (HU : 0 < U) by (apply Z.pow_pos_nonneg; lia).
  assert (Hpn : 0 < 2 ^ n) by (apply Z.pow_pos_nonneg; lia).
  assert (HTU : T = U * 2 ^ n).
  { unfold T, U. rewrite <- Z.pow_add_r by lia. f_equal. lia. }
  assert (Hdiv : Zpos M / 2 ^ n = sec * U + b / 2 ^ n).
  { rewrite HM, HTU, Z.mul_assoc. apply Z.div_add_l. lia. }
  assert (Hbq : 0 <= b / 2 ^ n < U).
  { split; [ apply Z.div_pos; lia | ].
    apply Z.div_lt_upper_bound; [ lia | ]. rewrite Z.mul_comm, <- HTU. lia. }
  replace (e' <=? 971) with true by (symmetry; apply Z.leb_le; lia).
  cbn [to_int64].
  assert (Hshift : Z.shiftl (Zpos m') e' = k / U).
  { rewrite Z.shiftl_div_pow2 by lia.
    rewrite <- (Z.div_mul_cancel_r (Zpos m') (2 ^ (- e')) (2 ^ (e' - ez)))
      by (apply Z.pow_nonzero; lia).
    rewrite HW, <- Z.pow_add_r by lia.
    replace (- e' + (e' - ez)) with (- ez) by lia. fold T.
    rewrite HTU. apply Z.div_mul_cancel_r; lia. }
  rewrite Hshift.
  assert (HN : sec <= k / U <= sec + 1).
  { split.
    - apply Z.div_le_lower_bound; [ exact HU | ]. nia.
    - assert (k / U < sec + 2); [ | lia ].
      apply Z.div_lt_upper_bound; [ exact HU | ]. nia. }
  exists (k / U).
  replace (k / U <=? Int64.max) with true
    by (symmetry; apply Z.leb_le; unfold Int64.max; lia).
  split; [ reflexivity | ]. split; [ exact HN | ].
  intros Hs23 Hfrac.
  assert (Hn23 : n <= -30 - ez) by (apply (Hdig 23); lia).
  assert (HU30 : 2 ^ 30 <= U).
  { unfold U. apply Z.pow_le_mono_r; lia. }
  assert (Hb30 : b * 2 ^ 30 < (2 ^ 30 - 1) * T).
  { unfold b.
    replace T with (2 ^ (- ey) * 2 ^ (ey - ez)).
    - assert (0 < 2 ^ (ey - ez)) by (apply Z.pow_pos_nonneg; unfold ez; lia).
      nia.
    - unfold T. rewrite <- Z.pow_add_r by (unfold ez; lia). f_equal. lia. }
  assert (Hbq' : b / 2 ^ n < U - 1).
  { apply Z.div_lt_upper_bound; [ lia | ].
    assert (2 ^ 30 * 2 ^ n <= U * 2 ^ n)
      by (apply Z.mul_le_mono_nonneg_r; lia).
    nia. }
  assert (k / U < sec + 1); [ | lia ].
  apply Z.div_lt_upper_bound; [ exact HU | ]. nia.
Qed.

End Float64Facts.

(** ** Facts on durations and instants *)
Module timeFacts.

Import Float64 Float64Facts Int64Facts.

(** The float that [Seconds] returns has the sign of the duration. *)
Lemma Seconds_sign (d : Duration) :
  Int64.InRange d -> d <> 0 -> has_sign (d <? 0) (Seconds d).
Proof.
  intros Hr Hd. unfold Seconds, Int64.rem, Second.
  destruct (quot_rem_Second d Hr) as (Eq & Hqr & Hp & Hn). rewrite Eq.
  unfold Int64.InRange, Int64.min, Int64.max in Hr.
  set (sec := Z.quot d 1000000000) in *.
  set (nsec := Z.rem d 1000000000) in *.
  assert (Hsec : Z.abs sec < 2 ^ 34) by lia.
  assert (Hnsec : Z.abs nsec < 2 ^ 30) by lia.
  assert (Hss : sec <> 0 -> (sec <? 0) = (d <? 0)) by lia.
  assert (Hns : nsec <> 0 -> (nsec <? 0) = (d <? 0)) by lia.
  destruct (Z.eq_dec sec 0) as [Hs0 | Hs0];
    destruct (Z.eq_dec nsec 0) as [Hn0 | Hn0].
  - lia.
  - destruct (of_int_nonzero nsec Hn0 ltac:(lia)) as (m & E & _ & Hm).
    pose proof (Zdigits2_range nsec 30 Hn0 Hnsec) as Hdn.
    destruct (div_1e9 (nsec <? 0) m (Zdigits2 nsec - 53) Hm ltac:(lia))
      as (m' & e' & E' & _).
    rewrite Hs0, E, E', (Hns Hn0). reflexivity.
  - destruct (of_int_nonzero sec Hs0 ltac:(lia)) as (m & E & _ & Hm).
    rewrite Hn0, E, (Hss Hs0). reflexivity.
  - destruct (of_int_nonzero sec Hs0 ltac:(lia)) as (ms & Es & _ & Hms).
    destruct (of_int_nonzero nsec Hn0 ltac:(lia)) as (m & E & _ & Hm).
    pose proof (Zdigits2_range nsec 30 Hn0 Hnsec) as Hdn.
    pose proof (Zdigits2_range sec 34 Hs0 Hsec) as Hds.
    destruct (div_1e9 (nsec <? 0) m (Zdigits2 nsec - 53) Hm ltac:(lia))
      as (m' & e' & E' & He' & _).
    rewrite Es, E, E', (Hns Hn0), (Hss Hs0).
    apply add_same_sign; lia.
Qed.

(** [d.Seconds() > 0] holds exactly when the duration is positive: the
    comparison is at the precision of a nanosecond. *)
Lemma Seconds_gtb_zero (d : Duration) :
  Int64.InRange d -> gtb (Seconds d) zero = (0 <? d).
Proof.
  intros Hr. destruct (Z.eq_dec d 0) as [H0 | H0].
  - subst d. reflexivity.
  - rewrite (gtb_zero_of_sign (d <? 0)) by (apply Seconds_sign; assumption).
    lia.
Qed.

(** [int64(d.Seconds())]: the whole seconds of the duration, or one more in
    magnitude when rounding the sum carries into the next second, which
    cannot happen below 2^23 seconds. *)
Lemma to_int64_Seconds (d : Duration) :
  Int64.InRange d ->
  exists N : Z,
    to_int64 (Seconds d) = cond_Zopp (d <? 0) N
    /\ Z.abs (Z.quot d Second) <= N <= Z.abs (Z.quot d Second) + 1
    /\ (Z.abs (Z.quot d Second) < 2 ^ 23 -> N = Z.abs (Z.quot d Second)).
Proof.
  intros Hr. unfold Seconds, Int64.rem, Second.
  destruct (quot_rem_Second d Hr) as (Eq & Hqr & Hp & Hn). rewrite Eq.
  unfold Int64.InRange, Int64.min, Int64.max in Hr.
  set (sec := Z.quot d 1000000000) in *.
  set (nsec := Z.rem d 1000000000) in *.
  assert (Hsec : Z.abs sec < 2 ^ 34) by lia.
  assert (Hnsec : Z.abs nsec < 1000000000) by lia.
  assert (Hss : sec <> 0 -> (sec <? 0) = (d <? 0)) by lia.
  assert (Hns : nsec <> 0 -> (nsec <? 0) = (d <? 0)) by lia.
  destruct (Z.eq_dec sec 0) as [Hs0 | Hs0];
    destruct (Z.eq_dec nsec 0) as [Hn0 | Hn0].
  - exists 0. rewrite Hs0, Hn0. cbn. destruct (d <? 0); cbn; lia.
  - destruct (div_1e9_frac nsec Hn0 Hnsec) as (my & ey & E & Hey & Hmy).
    exists 0. rewrite Hs0, E. cbn [of_int binary_normalize add SFadd to_int64].
    assert (Hsmall : Zpos my < 2 ^ (- ey)).
    { assert (0 < 2 ^ (- ey)) by (apply Z.pow_pos_nonneg; lia). lia. }
    rewrite Z.shiftl_div_pow2, Z.div_small by lia.
    cbn. destruct (nsec <? 0), (d <? 0); cbn; lia.
  - destruct (of_int_nonzero sec Hs0 ltac:(lia)) as (ms & Es & Hmseq & Hms).
    pose proof (Zdigits2_range sec 34 Hs0 Hsec) as Hds.
    exists (Z.abs sec). rewrite Hn0, Es, (Hss Hs0).
    change (div (of_int 0) (of_int 1000000000)) with (S754_zero false).
    cbn [add SFadd to_int64].
    rewrite Z.shiftl_div_pow2 by lia.
    replace (- (Zdigits2 sec - 53)) with (53 - Zdigits2 sec) by lia.
    rewrite Hmseq, Z.div_mul by (apply Z.pow_nonzero; lia).
    replace (Z.abs sec <=? Int64.max) with true
      by (symmetry; apply Z.leb_le; unfold Int64.max; lia).
    split; [ reflexivity | lia ].
  - destruct (of_int_nonzero sec Hs0 ltac:(lia)) as (ms & Es & Hmseq & Hms).
    pose proof (Zdigits2_range sec 34 Hs0 Hsec) as Hds.
    destruct (div_1e9_frac nsec Hn0 Hnsec) as (my & ey & E & Hey & Hmy).
    assert (Hsmall : Zpos my < 2 ^ (- ey)).
    { assert (0 < 2 ^ (- ey)) by (apply Z.pow_pos_nonneg; lia). lia. }
    rewrite Es, E, (Hss Hs0), (Hns Hn0).
    destruct (add_int_frac (d <? 0) (Z.abs sec) ms my (Zdigits2 sec - 53) ey)
      as (N & EN & HN & Hex); try lia.
    { rewrite Hmseq. do 2 f_equal. lia. }
    exists N. split; [ exact EN | ]. split; [ exact HN | ].
    intros H23. apply Hex; assumption.
Qed.

End timeFacts.

(** ** Facts on the schedule *)
Module cronFacts.

Import Float64 Float64Facts Int64Facts timeFacts.

Lemma Nanosecond_of_range (t : Time) : 0 <= Nanosecond_of t < Second.
Proof. unfold Nanosecond_of, Second. apply Z.mod_pos_bound. lia. Qed.

Lemma Truncate_eq (t : Time) : Truncate t = t - Nanosecond_of t.
Proof. reflexivity. Qed.

Lemma Nanosecond_of_Truncate (t : Time) : Nanosecond_of (Truncate t) = 0.
Proof.
  unfold Nanosecond_of, Truncate, Second.
  rewrite Zminus_mod_idemp_r, Z.sub_diag. reflexivity.
Qed.

Lemma Nanosecond_of_add_seconds (t : Time) (k : Z) :
  Nanosecond_of (t + k * Second) = Nanosecond_of t.
Proof. unfold Nanosecond_of, Second. apply Z.mod_add. lia. Qed.

Lemma Sub_range (t u : Time) : Int64.InRange (Sub t u).
Proof.
  unfold Sub, minDuration, maxDuration, Int64.InRange, Int64.min, Int64.max.
  destruct (Z.ltb_spec (t - u) (- 2 ^ 63));
    [ | destruct (Z.ltb_spec (2 ^ 63 - 1) (t - u)) ]; lia.
Qed.

Lemma Sub_pos (t u : Time) : (0 <? Sub t u) = (u <? t).
Proof.
  unfold Sub, minDuration, maxDuration, Int64.min, Int64.max.
  destruct (Z.ltb_spec (t - u) (- 2 ^ 63));
    [ | destruct (Z.ltb_spec (2 ^ 63 - 1) (t - u)) ]; lia.
Qed.

(** The test of [Next] compares the two instants to the nanosecond. *)
Lemma Next_eq (s : ConstantDelaySchedule) (t : Time) :
  Next s t =
  if t <? StartTime s then StartTime s
  else Add t (Int64.sub (Delay s) (Int64.mul (Nanosecond_of t) Nanosecond)).
Proof.
  unfold Next. rewrite Seconds_gtb_zero by apply Sub_range.
  rewrite Sub_pos. reflexivity.
Qed.

Lemma Next_pending (s : ConstantDelaySchedule) (t : Time) :
  t < StartTime s -> Next s t = StartTime s.
Proof.
  intros H. rewrite Next_eq.
  destruct (Z.ltb_spec t (StartTime s)); [ reflexivity | lia ].
Qed.

(** The regular rule, when the subtraction does not wrap around. *)
Lemma Next_regular (s : ConstantDelaySchedule) (t : Time) :
  StartTime s <= t -> 0 <= Delay s <= Int64.max ->
  Next s t = Add (Truncate t) (Delay s).
Proof.
  intros H HD. rewrite Next_eq.
  destruct (Z.ltb_spec t (StartTime s)); [ lia | ].
  pose proof (Nanosecond_of_range t) as Hn.
  unfold Int64.sub, Int64.mul, Nanosecond, Add, Truncate.
  fold (Nanosecond_of t).
  unfold Second, Int64.max in *.
  rewrite Z.mul_1_r.
  rewrite (wrap_id (Nanosecond_of t))
    by (unfold Int64.InRange, Int64.min, Int64.max; lia).
  rewrite wrap_id by (unfold Int64.InRange, Int64.min, Int64.max; lia).
  lia.
Qed.

(** The interval that [Every] stores: the requested duration, or one
    second if that is more, cut down to whole seconds. *)
Lemma Every_Delay (d : Duration) :
  d <= Int64.max ->
  Delay (Every d) = Second * (Z.max d Second / Second).
Proof.
  intros Hd. unfold Every, Delay, Nanoseconds, Int64.sub, Int64.rem, Second.
  unfold Int64.max in Hd.
  assert (Hgen : forall d' : Z,
             1000000000 <= d' <= 2 ^ 63 - 1 ->
             Int64.wrap (d' - Z.rem d' 1000000000)
             = 1000000000 * (d' / 1000000000)).
  { intros d' Hd'. rewrite Z.rem_mod_nonneg by lia.
    pose proof (Z.div_mod d' 1000000000 ltac:(lia)) as Hdm.
    pose proof (Z.mod_pos_bound d' 1000000000 ltac:(lia)) as Hm.
    rewrite wrap_id by (unfold Int64.InRange, Int64.min, Int64.max; lia).
    lia. }
  destruct (Z.ltb_spec d 1000000000).
  - rewrite Z.max_r by lia. apply Hgen. lia.
  - rewrite Z.max_l by lia. apply Hgen. lia.
Qed.

Lemma Every_Delay_bounds (d : Duration) :
  d <= Int64.max ->
  Second <= Delay (Every d) <= Int64.max
  /\ Delay (Every d) mod Second = 0
  /\ Delay (Every d) <= Z.max d Second < Delay (Every d) + Second.
Proof.
  intros Hd. rewrite (Every_Delay d Hd). unfold Second, Int64.max in *.
  set (d' := Z.max d 1000000000).
  assert (Hd' : 1000000000 <= d' <= 2 ^ 63 - 1) by lia.
  pose proof (Z.div_mod d' 1000000000 ltac:(lia)) as Hdm.
  pose proof (Z.mod_pos_bound d' 1000000000 ltac:(lia)) as Hm.
  assert (1 <= d' / 1000000000)
    by (apply Z.div_le_lower_bound; lia).
  split; [ lia | ]. split; [ | lia ].
  rewrite Z.mul_comm. apply Z.mod_mul. lia.
Qed.

(** The divisor of the random draw is the whole seconds of the requested
    duration (not of the clamped interval), for durations below 2^23
    seconds in magnitude. *)
Lemma randDivisor_small (d : Duration) :
  Int64.InRange d -> Z.abs d < 2 ^ 23 * Second ->
  randDivisor d = Z.quot d Second.
Proof.
  intros Hr Hd. unfold randDivisor.
  destruct (to_int64_Seconds d Hr) as (N & E & _ & Hex).
  destruct (quot_rem_Second d Hr) as (_ & Hqr & Hp & Hn).
  unfold Second in *. rewrite E.
  assert (HN : N = Z.abs (Z.quot d 1000000000)) by (apply Hex; lia).
  destruct (Z.ltb_spec d 0); cbn [cond_Zopp]; lia.
Qed.

Lemma randDivisor_zero_iff (d : Duration) :
  Int64.InRange d -> (randDivisor d = 0 <-> - Second < d < Second).
Proof.
  intros Hr. unfold randDivisor.
  destruct (to_int64_Seconds d Hr) as (N & E & HN & Hex).
  destruct (quot_rem_Second d Hr) as (_ & Hqr & Hp & Hn).
  unfold Second in *. rewrite E. split.
  - intros H0.
    assert (N = 0) by (destruct (d <? 0); cbn [cond_Zopp] in H0; lia). lia.
  - intros Hd.
    assert (HN0 : N = Z.abs (Z.quot d 1000000000)) by (apply Hex; lia).
    destruct (d <? 0); cbn [cond_Zopp]; lia.
Qed.

Lemma randDivisor_bound (d : Duration) :
  Int64.InRange d -> Z.abs (randDivisor d) <= 9223372037.
Proof.
  intros Hr. unfold randDivisor.
  destruct (to_int64_Seconds d Hr) as (N & E & HN & _).
  destruct (quot_rem_Second d Hr) as (_ & Hqr & Hp & Hn).
  unfold Int64.InRange, Int64.min, Int64.max in Hr.
  unfold Second in *. rewrite E.
  destruct (d <? 0); cbn [cond_Zopp]; lia.
Qed.

(** What [EveryWithRandInitial] returns when the divisor is not zero: the
    start of the current second, plus the interval, minus the drawn number
    of seconds. *)
Lemma EveryWithRandInitial_returns (d : Duration) (now : Time) (r : Z) :
  Int64.InRange d -> randDivisor d <> 0 -> 0 <= r ->
  EveryWithRandInitial d now r
  = Returns {| Delay := Delay (Every d);
               StartTime := Truncate now + Delay (Every d)
                            - Z.rem r (randDivisor d) * Second |}
  /\ 0 <= Z.rem r (randDivisor d) < Z.abs (randDivisor d).
Proof.
  intros Hr Hn0 Hr0.
  pose proof (randDivisor_bound d Hr) as Hnb.
  assert (Hk : 0 <= Z.rem r (randDivisor d) < Z.abs (randDivisor d)).
  { split; [ apply Z.rem_nonneg; assumption | ].
    pose proof (Z.rem_bound_abs r (randDivisor d) Hn0). lia. }
  split; [ | exact Hk ].
  unfold EveryWithRandInitial.
  destruct (Z.eqb_spec (randDivisor d) 0) as [ | _ ]; [ contradiction | ].
  do 2 f_equal.
  destruct (Every_Delay_bounds d) as ((HD1 & HD2) & _);
    [ apply Hr | ].
  pose proof (Nanosecond_of_range now) as Hns.
  set (k := Z.rem r (randDivisor d)) in *.
  unfold Int64.sub, Int64.mul, Int64.rem, Add, Truncate.
  fold (Nanosecond_of now). fold k.
  rewrite Z.rem_small by exact Hns.
  unfold Second, Int64.max in *.
  rewrite (wrap_id (Delay (Every d) - Nanosecond_of now))
    by (unfold Int64.InRange, Int64.min, Int64.max; lia).
  rewrite (wrap_id (k * 1000000000))
    by (unfold Int64.InRange, Int64.min, Int64.max; lia).
  rewrite wrap_id by (unfold Int64.InRange, Int64.min, Int64.max; lia).
  lia.
Qed.

Lemma EveryWithRandInitial_panics (d : Duration) (now : Time) (r : Z) :
  Int64.InRange d -> - Second < d < Second ->
  randDivisor d = 0 /\ EveryWithRandInitial d now r = PanicDivideByZero.
Proof.
  intros Hr Hd.
  assert (H0 : randDivisor d = 0) by (apply randDivisor_zero_iff; assumption).
  split; [ exact H0 | ].
  unfold EveryWithRandInitial. rewrite H0. reflexivity.
Qed.

(** The start time of [EveryWithInitial], when the offset is not within a
    second of the smallest int64. *)
Lemma EveryWithInitial_StartTime (d initial : Duration) (now : Time) :
  Int64.min + Second <= initial <= Int64.max ->
  StartTime (EveryWithInitial d initial now) = Truncate now + initial.
Proof.
  intros Hi. unfold EveryWithInitial, StartTime, Int64.sub, Int64.rem, Add,
    Truncate.
  fold (Nanosecond_of now).
  pose proof (Nanosecond_of_range now) as Hns.
  rewrite Z.rem_small by exact Hns.
  unfold Second, Int64.max, Int64.min in *.
  rewrite wrap_id by (unfold Int64.InRange, Int64.min, Int64.max; lia).
  lia.
Qed.

(** A schedule whose start time and interval are whole seconds answers
    with whole seconds. *)
Lemma Next_whole_second (s : ConstantDelaySchedule) (t : Time) :
  Nanosecond_of (StartTime s) = 0 ->
  0 <= Delay s <= Int64.max -> Delay s mod Second = 0 ->
  Nanosecond_of (Next s t) = 0.
Proof.
  intros Hst HD Hmod.
  destruct (Z_lt_le_dec t (StartTime s)) as [Hlt | Hle].
  - rewrite Next_pending by assumption. exact Hst.
  - rewrite Next_regular by assumption.
    unfold Add.
    pose proof (Z.div_mod (Delay s) Second ltac:(unfold Second; lia)) as E.
    rewrite Hmod, Z.add_0_r in E. rewrite E.
    rewrite (Z.mul_comm Second), Nanosecond_of_add_seconds.
    apply Nanosecond_of_Truncate.
Qed.



Lemma Next_EveryWithInitial_whole_second
  (d initial : Duration) (now t : Time) :
  Int64.InRange d -> Int64.min + Second <= initial <= Int64.max ->
  initial mod Second = 0 ->
  Nanosecond_of (Next (EveryWithInitial d initial now) t) = 0.
Proof.
  intros Hr Hi Hmod.
  destruct (Every_Delay_bounds d) as ((HD1 & HD2) & HDmod & _); [ apply Hr | ].
  apply Next_whole_second;
    [ | change (Delay (EveryWithInitial d initial now)) with (Delay (Every d));
        unfold Second in *; lia
      | exact HDmod ].
  rewrite EveryWithInitial_StartTime by exact Hi.
  pose proof (Z.div_mod initial Second ltac:(unfold Second; lia)) as Ed.
  rewrite Hmod, Z.add_0_r in Ed. rewrite Ed.
  rewrite (Z.mul_comm Second), Nanosecond_of_add_seconds.
  apply Nanosecond_of_Truncate.
Qed.

End cronFacts.

(** ** The properties of the specification *)

Import Int64Facts Float64Facts timeFacts cronFacts.

(** C1. The divisor of the random draw in [EveryWithRandInitial] is computed
    from the requested duration, not from the clamped interval: for the
    requested durations 500ms and 0 it is zero, and the call panics with a
    division by zero whatever the clock and the draw are; for -5s it is -5. *)
Theorem EveryWithRandInitial_subsecond_divisor_zero :
  randDivisor 500000000 = 0
  /\ randDivisor 0 = 0
  /\ randDivisor (-5000000000) = -5
  /\ (forall (now : Time) (r : Z),
        EveryWithRandInitial 500000000 now r = PanicDivideByZero)
  /\ (forall (now : Time) (r : Z),
        EveryWithRandInitial 0 now r = PanicDivideByZero).
Proof.
  split; [ reflexivity | ]. split; [ reflexivity | ].
  split; [ reflexivity | ].
  split; intros now r; apply EveryWithRandInitial_panics;
    unfold Int64.InRange, Int64.min, Int64.max, Second; lia.
Qed.

(** C2, as stated, fails: a start time half a second after [now] is
    returned as it is, not replaced by [now] truncated plus the interval. *)
Lemma Next_subsecond_not_regular :
  0 < StartTime (mkSchedule 5000000000 500000000) - 0 < Second
  /\ Next (mkSchedule 5000000000 500000000) 0
     <> Add (Truncate 0) (Delay (mkSchedule 5000000000 500000000)).
Proof.
  split; [ unfold Second; cbn; lia | ].
  rewrite Next_pending by (cbn; lia). cbn. discriminate.
Qed.

(** C2, amended. When the start time is later than [now] by a positive
    amount below one second, [Next] does treat it as future (the
    comparison is at the precision of a nanosecond) and returns the start
    time unchanged. *)
Theorem Next_subsecond_is_future (s : ConstantDelaySchedule) (now : Time) :
  0 < StartTime s - now < Second -> Next s now = StartTime s.
Proof. intros H. apply Next_pending. lia. Qed.

Lemma Next_subsecond_is_future_witness :
  0 < StartTime (mkSchedule 5000000000 500000000) - 0 < Second
  /\ Next (mkSchedule 5000000000 500000000) 0
     = StartTime (mkSchedule 5000000000 500000000).
Proof.
  split.
  - unfold Second; cbn; lia.
  - apply (Next_subsecond_is_future (mkSchedule 5000000000 500000000) 0).
    unfold Second; cbn; lia.
Defined.

(** C3, as stated, fails: constructed on a whole second with a draw that is
    a multiple of 60, the start time is the construction time plus 60s,
    which is outside the window. *)
Lemma EveryWithRandInitial_60s_window_open_end :
  EveryWithRandInitial (60 * Second) (Unix 100 0) 0
  = Returns (mkSchedule (60 * Second) (Unix 160 0))
  /\ ~ (Unix 100 0 <= StartTime (mkSchedule (60 * Second) (Unix 160 0))
                   < Add (Unix 100 0) (60 * Second)).
Proof.
  split; [ reflexivity | ].
  unfold Unix, Add, Second; cbn. lia.
Qed.

(** C3, amended. For every construction time [t0] and every draw, the start
    time produced by [EveryWithRandInitial] with an interval of 60s lies in
    the window (t0, t0 + 60s]: it is [t0] truncated to the second plus
    between 1 and 60 whole seconds. *)
Theorem EveryWithRandInitial_60s_window (d : Duration) (t0 : Time) (r : Z) :
  Int64.InRange d -> Delay (Every d) = 60 * Second -> 0 <= r ->
  exists s : ConstantDelaySchedule,
    EveryWithRandInitial d t0 r = Returns s
    /\ Delay s = 60 * Second
    /\ StartTime s = Truncate t0 + (60 - Z.rem r 60) * Second
    /\ 0 <= Z.rem r 60 < 60
    /\ t0 < StartTime s <= t0 + 60 * Second.
Proof.
  intros Hr HD Hr0.
  destruct (Every_Delay_bounds d) as (_ & _ & Hcut); [ apply Hr | ].
  rewrite HD in Hcut. unfold Second in Hcut.
  assert (Hd : 60000000000 <= d < 61000000000) by lia.
  assert (Hn : randDivisor d = 60).
  { rewrite randDivisor_small; [ | exact Hr | unfold Second; lia ].
    unfold Second. symmetry.
    apply (Z.quot_unique d 1000000000 60 (d - 60000000000)); lia. }
  destruct (EveryWithRandInitial_returns d t0 r Hr) as [E Hk];
    [ lia | exact Hr0 | ].
  rewrite Hn in E, Hk.
  eexists. split; [ exact E | ]. cbn [Delay StartTime].
  pose proof (Nanosecond_of_range t0) as Hns.
  rewrite Truncate_eq. unfold Second in *.
  split; [ exact HD | ]. split; [ lia | ]. split; [ lia | lia ].
Qed.

Lemma EveryWithRandInitial_60s_window_witness :
  Int64.InRange 60500000000
  /\ Delay (Every 60500000000) = 60 * Second
  /\ 0 <= 7
  /\ exists s : ConstantDelaySchedule,
       EveryWithRandInitial 60500000000 1700000000123456789 7 = Returns s
       /\ Delay s = 60 * Second
       /\ StartTime s = Truncate 1700000000123456789 + (60 - Z.rem 7 60) * Second
       /\ 0 <= Z.rem 7 60 < 60
       /\ 1700000000123456789 < StartTime s
          <= 1700000000123456789 + 60 * Second.
Proof.
  assert (H1 : Int64.InRange 60500000000)
    by (unfold Int64.InRange, Int64.min, Int64.max; lia).
  assert (H2 : Delay (Every 60500000000) = 60 * Second) by reflexivity.
  split; [ exact H1 | ]. split; [ exact H2 | ]. split; [ lia | ].
  apply (EveryWithRandInitial_60s_window 60500000000 1700000000123456789 7 H1 H2).
  lia.
Defined.

(** C4. An activation time off the second boundary: a schedule built by
    [EveryWithInitial] with an offset of 500ms on a whole second answers
    [Next] at that moment with its start time, half a second past the
    second. *)
Theorem Next_EveryWithInitial_subsecond_offset (sec : Z) :
  Next (EveryWithInitial (5 * Second) 500000000 (Unix sec 0)) (Unix sec 0)
  = Unix sec 500000000
  /\ Nanosecond_of (Unix sec 500000000) = 500000000.
Proof.
  assert (Hst : StartTime (EveryWithInitial (5 * Second) 500000000 (Unix sec 0))
                = Unix sec 500000000).
  { rewrite EveryWithInitial_StartTime
      by (unfold Int64.min, Int64.max, Second; lia).
    unfold Truncate, Unix, Second.
    rewrite Z.add_0_r, Z.mod_mul by lia. lia. }
  split.
  - rewrite Next_pending; [ exact Hst | ].
    rewrite Hst. unfold Unix, Second. lia.
  - unfold Nanosecond_of, Unix, Second.
    rewrite Z.add_comm, Z.mod_add by lia. reflexivity.
Qed.







(** C7. While the start time lies a full second or more after the query
    time, [Next] returns the start time unchanged, the same value for all
    such query times; so does [Next (t0 + 1s)] for a schedule built at [t0]
    with an offset of 10s. *)
Theorem Next_pending_idempotent
  (s : ConstantDelaySchedule) (now1 now2 : Time) (d : Duration) (t0 : Time) :
  Second <= StartTime s - now1 -> Second <= StartTime s - now2 ->
  Next s now1 = StartTime s
  /\ Next s now2 = StartTime s
  /\ Next s now1 = Next s now2
  /\ Next (EveryWithInitial d (10 * Second) t0) (Add t0 Second)
     = StartTime (EveryWithInitial d (10 * Second) t0)
  /\ StartTime (EveryWithInitial d (10 * Second) t0)
     = Add (Truncate t0) (10 * Second).
Proof.
  intros H1 H2. unfold Second in H1, H2.
  assert (E1 : Next s now1 = StartTime s) by (apply Next_pending; lia).
  assert (E2 : Next s now2 = StartTime s) by (apply Next_pending; lia).
  assert (Hst : StartTime (EveryWithInitial d (10 * Second) t0)
                = Add (Truncate t0) (10 * Second))
    by (apply EveryWithInitial_StartTime;
        unfold Int64.min, Int64.max, Second; lia).
  split; [ exact E1 | ]. split; [ exact E2 | ].
  split; [ congruence | ]. split; [ | exact Hst ].
  apply Next_pending. rewrite Hst, Truncate_eq.
  pose proof (Nanosecond_of_range t0). unfold Add, Second in *. lia.
Qed.

Lemma Next_pending_idempotent_witness :
  Second <= StartTime (EveryWithInitial 5000000000 10000000000 7000000420)
            - 8000000420
  /\ Second <= StartTime (EveryWithInitial 5000000000 10000000000 7000000420)
               - 15999999999
  /\ Next (EveryWithInitial 5000000000 10000000000 7000000420) 8000000420
     = Next (EveryWithInitial 5000000000 10000000000 7000000420) 15999999999.
Proof.
  assert (H1 : Second
               <= StartTime (EveryWithInitial 5000000000 10000000000 7000000420)
                  - 8000000420)
    by (unfold Second; cbn; lia).
  assert (H2 : Second
               <= StartTime (EveryWithInitial 5000000000 10000000000 7000000420)
                  - 15999999999)
    by (unfold Second; cbn; lia).
  split; [ exact H1 | ]. split; [ exact H2 | ].
  pose proof (Next_pending_idempotent
                (EveryWithInitial 5000000000 10000000000 7000000420)
                8000000420 15999999999 5000000000 7000000420 H1 H2)
    as (_ & _ & E & _).
  exact E.
Defined.

(** C8. For every requested duration below one second, zero and negative
    ones included, the interval of the schedule built by [Every] is exactly
    one second. *)
Theorem Every_subsecond_clamped (d : Duration) :
  d < Second -> Delay (Every d) = Second.
Proof.
  intros Hd. rewrite Every_Delay by (unfold Int64.max, Second in *; lia).
  rewrite Z.max_r by lia. unfold Second. reflexivity.
Qed.

Lemma Every_subsecond_clamped_witness :
  -3 < Second /\ Delay (Every (-3)) = Second.
Proof.
  split; [ unfold Second; lia | ].
  apply (Every_subsecond_clamped (-3)). unfold Second; lia.
Defined.

(** C9. After construction by any of the three constructors the interval is
    at least one second and a whole number of seconds, obtained from the
    requested duration by truncation, never by rounding up (5.7s gives 5s).
    [EveryWithRandInitial] does construct a schedule whenever the requested
    duration is a second or more in magnitude. *)
Theorem constructors_interval_truncated
  (d initial : Duration) (now : Time) (r : Z) :
  Int64.InRange d ->
  truncated_interval d (Delay (Every d))
  /\ truncated_interval d (Delay (EveryWithInitial d initial now))
  /\ (forall s : ConstantDelaySchedule,
        EveryWithRandInitial d now r = Returns s ->
        truncated_interval d (Delay s))
  /\ (d <= - Second \/ Second <= d ->
      exists s : ConstantDelaySchedule,
        EveryWithRandInitial d now r = Returns s)
  /\ Delay (Every 5700000000) = 5 * Second.
Proof.
  intros Hr.
  assert (HE : truncated_interval d (Delay (Every d))).
  { destruct (Every_Delay_bounds d) as ((HD1 & HD2) & Hmod & Hcut);
      [ apply Hr | ].
    unfold truncated_interval. auto. }
  split; [ exact HE | ]. split; [ exact HE | ].
  split; [ | split; [ | reflexivity ] ].
  - intros s. unfold EveryWithRandInitial.
    destruct (randDivisor d =? 0); [ discriminate | ].
    intros E. injection E as E. subst s. exact HE.
  - intros Hd. unfold EveryWithRandInitial.
    destruct (Z.eqb_spec (randDivisor d) 0) as [H0 | H0].
    + apply randDivisor_zero_iff in H0; [ lia | exact Hr ].
    + eexists. reflexivity.
Qed.

Lemma constructors_interval_truncated_witness :
  Int64.InRange 5700000000
  /\ truncated_interval 5700000000 (Delay (Every 5700000000))
  /\ exists s : ConstantDelaySchedule,
       EveryWithRandInitial 5700000000 1700000000123456789 12345 = Returns s.
Proof.
  assert (H1 : Int64.InRange 5700000000)
    by (unfold Int64.InRange, Int64.min, Int64.max; lia).
  split; [ exact H1 | ].
  pose proof (constructors_interval_truncated
                5700000000 0 1700000000123456789 12345 H1)
    as (Ha & _ & _ & Hb & _).
  split; [ exact Ha | ].
  apply Hb. right. unfold Second. lia.
Defined.

(** C10. For a plain schedule built by [Every], a query time before the
    Unix epoch is answered with the epoch itself, the start time that
    [Every] stores. *)
Theorem Next_Every_before_epoch (d : Duration) (now : Time) :
  now < Unix 0 0 ->
  Next (Every d) now = Unix 0 0 /\ StartTime (Every d) = Unix 0 0.
Proof.
  intros H. split; [ | reflexivity ].
  apply Next_pending. exact H.
Qed.

Lemma Next_Every_before_epoch_witness :
  -1 < Unix 0 0 /\ Next (Every 5000000000) (-1) = Unix 0 0.
Proof.
  split; [ cbn; lia | ].
  apply (Next_Every_before_epoch 5000000000 (-1)). cbn; lia.
Defined.

(** ** Further facts: truncation, cadence and the random offset *)
Module cadenceFacts.

Lemma Truncate_div (t : Time) : Truncate t = Second * (t / Second).
Proof.
  unfold Truncate, Second.
  pose proof (Z.div_mod t 1000000000 ltac:(lia)). lia.
Qed.

Lemma Truncate_mono (t1 t2 : Time) : t1 <= t2 -> Truncate t1 <= Truncate t2.
Proof.
  intros H. rewrite !Truncate_div.
  pose proof (Z.div_le_mono t1 t2 Second ltac:(unfold Second; lia) H).
  unfold Second in *. lia.
Qed.

Lemma Truncate_whole (t : Time) : Nanosecond_of t = 0 -> Truncate t = t.
Proof. intros H. rewrite Truncate_eq, H. lia. Qed.


Lemma Every_Delay_pos (d : Duration) :
  Second <= d <= Int64.max -> Delay (Every d) = Second * (d / Second).
Proof.
  intros Hd. rewrite Every_Delay by lia. rewrite Z.max_l by lia. reflexivity.
Qed.

Lemma Every_subsecond_delay (d : Duration) :
  d < Second -> Delay (Every d) = Second.
Proof.
  intros Hd. rewrite Every_Delay by (unfold Int64.max, Second in *; lia).
  rewrite Z.max_r by lia. reflexivity.
Qed.

(** The divisor of the draw for a duration of a second or more. *)
Lemma randDivisor_pos_bounds (d : Duration) :
  Int64.InRange d -> Second <= d ->
  1 <= d / Second <= randDivisor d /\ randDivisor d <= d / Second + 1.
Proof.
  intros Hr Hd. unfold randDivisor.
  destruct (to_int64_Seconds d Hr) as (N & E & HN & _).
  unfold Second in *.
  rewrite Z.quot_div_nonneg in HN by lia.
  assert (1 <= d / 1000000000) by (apply Z.div_le_lower_bound; lia).
  rewrite E. replace (d <? 0) with false by (symmetry; apply Z.ltb_ge; lia).
  cbn [cond_Zopp]. lia.
Qed.

(** Past its start time a schedule with an interval of whole seconds ticks
    at a fixed cadence. *)
Lemma Next_iter_regular (s : ConstantDelaySchedule) (t : Time) (n : nat) :
  StartTime s <= t -> Second <= Delay s <= Int64.max ->
  Delay s mod Second = 0 ->
  Nat.iter (S n) (Next s) t = Truncate t + Z.of_nat (S n) * Delay s.
Proof.
  intros Hst HD Hmod.
  pose proof (Nanosecond_of_range t) as Hns.
  assert (HD0 : 0 <= Delay s <= Int64.max) by (unfold Second in *; lia).
  induction n as [ | n IH ].
  - cbn [Nat.iter nat_rect]. rewrite Next_regular by assumption.
    unfold Add. lia.
  - change (Nat.iter (S (S n)) (Next s) t)
      with (Next s (Nat.iter (S n) (Next s) t)).
    rewrite IH. set (k := Z.of_nat (S n)).
    assert (Hk : 1 <= k) by (unfold k; lia).
    assert (Hwhole : Nanosecond_of (Truncate t + k * Delay s) = 0).
    { pose proof (Z.div_mod (Delay s) Second ltac:(unfold Second; lia)) as Ed.
      rewrite Hmod, Z.add_0_r in Ed. rewrite Ed.
      replace (k * (Second * (Delay s / Second)))
        with (k * (Delay s / Second) * Second) by ring.
      rewrite Nanosecond_of_add_seconds. apply Nanosecond_of_Truncate. }
    rewrite Next_regular; [ | | exact HD0 ].
    + rewrite (Truncate_whole _ Hwhole). unfold Add.
      unfold k. rewrite (Nat2Z.inj_succ (S n)). lia.
    + rewrite Truncate_eq. unfold Second in *. nia.
Qed.

End cadenceFacts.

Import cadenceFacts.

(** ** Further properties of the schedule *)

(** X1. [Next] decides between its two branches by comparing the two
    instants to the nanosecond, however far apart they are: before the start
    time it returns the start time, from the start time on it adds the
    interval less the sub-second part of the query time (in int64
    arithmetic). *)
Theorem Next_by_instant_comparison (s : ConstantDelaySchedule) (t : Time) :
  Next s t =
  if t <? StartTime s then StartTime s
  else Add t (Int64.wrap (Delay s - Nanosecond_of t)).
Proof.
  rewrite Next_eq. destruct (t <? StartTime s); [ reflexivity | ].
  unfold Int64.sub, Int64.mul, Nanosecond. rewrite Z.mul_1_r.
  pose proof (Nanosecond_of_range t) as Hn. unfold Second in Hn.
  rewrite (wrap_id (Nanosecond_of t))
    by (unfold Int64.InRange, Int64.min, Int64.max; lia).
  reflexivity.
Qed.

(** X2. With an interval of a second or more, the answer of [Next] is
    strictly after the query time, not before the start time, and at most one
    interval after the query time unless the start time is later still. *)
Theorem Next_strictly_after (s : ConstantDelaySchedule) (t : Time) :
  Second <= Delay s <= Int64.max ->
  t < Next s t
  /\ StartTime s <= Next s t
  /\ Next s t <= Z.max (StartTime s) (t + Delay s).
Proof.
  intros HD. pose proof (Nanosecond_of_range t) as Hn.
  destruct (Z_lt_le_dec t (StartTime s)) as [Hlt | Hle].
  - rewrite Next_pending by assumption. lia.
  - rewrite Next_regular by (unfold Second in *; lia).
    rewrite Truncate_eq. unfold Add, Second in *. lia.
Qed.

Lemma Next_strictly_after_witness :
  Second <= Delay (Every 5000000000) <= Int64.max
  /\ 1700000000123456789 < Next (Every 5000000000) 1700000000123456789.
Proof.
  assert (H : Second <= Delay (Every 5000000000) <= Int64.max)
    by (unfold Second, Int64.max; cbn; lia).
  split; [ exact H | ].
  apply (Next_strictly_after (Every 5000000000) 1700000000123456789 H).
Defined.

(** X3. With an interval of a second or more, [Next] is monotone in the
    query time: a later query never gets an earlier answer. *)
Theorem Next_monotone (s : ConstantDelaySchedule) (t1 t2 : Time) :
  Second <= Delay s <= Int64.max -> t1 <= t2 -> Next s t1 <= Next s t2.
Proof.
  intros HD Hle.
  assert (HD0 : 0 <= Delay s <= Int64.max) by (unfold Second in *; lia).
  pose proof (Truncate_mono t1 t2 Hle) as Hmono.
  pose proof (Nanosecond_of_range t2) as Hn2.
  destruct (Z_lt_le_dec t1 (StartTime s)) as [H1 | H1];
    destruct (Z_lt_le_dec t2 (StartTime s)) as [H2 | H2].
  - rewrite !Next_pending by assumption. lia.
  - rewrite Next_pending, Next_regular by assumption.
    rewrite Truncate_eq. unfold Add, Second in *. lia.
  - lia.
  - rewrite !Next_regular by assumption. unfold Add. lia.
Qed.

Lemma Next_monotone_witness :
  Second <= Delay (EveryWithInitial 5000000000 10000000000 7000000420)
         <= Int64.max
  /\ 8000000000 <= 20000000001
  /\ Next (EveryWithInitial 5000000000 10000000000 7000000420) 8000000000
     <= Next (EveryWithInitial 5000000000 10000000000 7000000420) 20000000001.
Proof.
  assert (H : Second
              <= Delay (EveryWithInitial 5000000000 10000000000 7000000420)
              <= Int64.max)
    by (unfold Second, Int64.max; cbn; lia).
  split; [ exact H | ]. split; [ lia | ].
  apply (Next_monotone _ 8000000000 20000000001 H). lia.
Defined.



(** X5. A plain schedule ticks at a fixed cadence without drift: feeding
    each answer of [Next] back as the next query time, from a first query
    time [t] at or after the epoch, the n-th answer is [t] truncated to the
    second plus n intervals. *)
Theorem Every_fixed_cadence (d : Duration) (t : Time) (n : nat) :
  Int64.InRange d -> 0 <= t ->
  Nat.iter (S n) (Next (Every d)) t
  = Truncate t + Z.of_nat (S n) * Delay (Every d).
Proof.
  intros Hr Ht.
  destruct (Every_Delay_bounds d) as (HD & Hmod & _); [ apply Hr | ].
  apply Next_iter_regular; [ exact Ht | exact HD | exact Hmod ].
Qed.

Lemma Every_fixed_cadence_witness :
  Int64.InRange 90000000000 /\ 0 <= 1700000000123456789
  /\ Nat.iter 3 (Next (Every 90000000000)) 1700000000123456789
     = Truncate 1700000000123456789 + 3 * Delay (Every 90000000000).
Proof.
  assert (H : Int64.InRange 90000000000)
    by (unfold Int64.InRange, Int64.min, Int64.max; lia).
  split; [ exact H | ]. split; [ lia | ].
  apply (Every_fixed_cadence 90000000000 1700000000123456789 2 H). lia.
Defined.

(** X6. A schedule built at [t0] with an offset of one or more whole
    seconds first fires at [t0] truncated plus the offset and then ticks at
    the interval from there: queried from [t0] on with each answer fed back,
    the (n+1)-th answer is the start time plus n intervals. *)
Theorem EveryWithInitial_cadence
  (d initial : Duration) (t0 : Time) (n : nat) :
  Int64.InRange d -> Second <= initial <= Int64.max ->
  initial mod Second = 0 ->
  Nat.iter (S n) (Next (EveryWithInitial d initial t0)) t0
  = Truncate t0 + initial + Z.of_nat n * Delay (Every d).
Proof.
  intros Hr Hi Hmod.
  destruct (Every_Delay_bounds d) as (HD & HDmod & _); [ apply Hr | ].
  pose proof (Nanosecond_of_range t0) as Hn.
  assert (Hst : StartTime (EveryWithInitial d initial t0)
                = Truncate t0 + initial)
    by (apply EveryWithInitial_StartTime;
        unfold Int64.min, Int64.max, Second in *; lia).
  assert (Hfirst : Next (EveryWithInitial d initial t0) t0
                   = Truncate t0 + initial).
  { rewrite Next_pending; [ exact Hst | ].
    rewrite Hst, Truncate_eq. unfold Second in *. lia. }
  rewrite Nat.iter_succ_r, Hfirst.
  destruct n as [ | n ]; [ cbn [Nat.iter nat_rect Z.of_nat]; lia | ].
  assert (Hwhole : Nanosecond_of (Truncate t0 + initial) = 0).
  { pose proof (Z.div_mod initial Second ltac:(unfold Second; lia)) as Ed.
    rewrite Hmod, Z.add_0_r in Ed. rewrite Ed.
    rewrite (Z.mul_comm Second), Nanosecond_of_add_seconds.
    apply Nanosecond_of_Truncate. }
  rewrite Next_iter_regular;
    [ | rewrite Hst; lia | exact HD | exact HDmod ].
  rewrite (Truncate_whole _ Hwhole). reflexivity.
Qed.

Lemma EveryWithInitial_cadence_witness :
  Int64.InRange 5000000000 /\ Second <= 10000000000 <= Int64.max
  /\ 10000000000 mod Second = 0
  /\ Nat.iter 3 (Next (EveryWithInitial 5000000000 10000000000 7000000420))
       7000000420
     = Truncate 7000000420 + 10000000000 + 2 * Delay (Every 5000000000).
Proof.
  assert (H1 : Int64.InRange 5000000000)
    by (unfold Int64.InRange, Int64.min, Int64.max; lia).
  assert (H2 : Second <= 10000000000 <= Int64.max)
    by (unfold Second, Int64.max; lia).
  assert (H3 : 10000000000 mod Second = 0) by reflexivity.
  split; [ exact H1 | ]. split; [ exact H2 | ]. split; [ exact H3 | ].
  apply (EveryWithInitial_cadence 5000000000 10000000000 7000000420 2 H1 H2 H3).
Defined.

(** X7. A schedule built at [t0] with an offset that is zero or negative,
    and not so negative that subtracting the nanosecond part of [t0] from it
    overflows an int64, never hands out its start time to a query at or
    after [t0]: every such query gets the query time truncated to the second
    plus the interval. *)
Theorem EveryWithInitial_nonpositive_offset_never_pending
  (d initial : Duration) (t0 now : Time) :
  Int64.InRange d -> Int64.min + Nanosecond_of t0 <= initial <= 0 ->
  t0 <= now ->
  Next (EveryWithInitial d initial t0) now
  = Add (Truncate now) (Delay (Every d)).
Proof.
  intros Hr Hi Hnow.
  destruct (Every_Delay_bounds d) as (HD & _ & _); [ apply Hr | ].
  pose proof (Nanosecond_of_range t0) as Hn.
  assert (Hst : StartTime (EveryWithInitial d initial t0)
                = t0 + (initial - Nanosecond_of t0)).
  { unfold EveryWithInitial, StartTime, Int64.sub, Int64.rem, Add.
    rewrite Z.rem_small by exact Hn.
    rewrite wrap_id; [ reflexivity | ].
    unfold Int64.InRange, Int64.min, Int64.max, Second in *. lia. }
  rewrite Next_regular.
  - reflexivity.
  - rewrite Hst. lia.
  - change (Delay (EveryWithInitial d initial t0)) with (Delay (Every d)).
    unfold Second in *. lia.
Qed.

Lemma EveryWithInitial_nonpositive_offset_never_pending_witness :
  Int64.InRange 5000000000
  /\ Int64.min + Nanosecond_of 7000000420 <= -9223372036854775388 <= 0
  /\ 7000000420 <= 9000000001
  /\ Next (EveryWithInitial 5000000000 (-9223372036854775388) 7000000420)
          9000000001
     = Add (Truncate 9000000001) (Delay (Every 5000000000)).
Proof.
  assert (H1 : Int64.InRange 5000000000)
    by (unfold Int64.InRange, Int64.min, Int64.max; lia).
  assert (H2 : Int64.min + Nanosecond_of 7000000420
               <= -9223372036854775388 <= 0)
    by (unfold Int64.min; cbn; lia).
  split; [ exact H1 | ]. split; [ exact H2 | ]. split; [ lia | ].
  apply (EveryWithInitial_nonpositive_offset_never_pending
           5000000000 (-9223372036854775388) 7000000420 9000000001 H1 H2).
  lia.
Defined.

(** X8. An offset within the sub-second part of the clock of the smallest
    int64 overflows the subtraction in [EveryWithInitial]: the start time
    lands 2^64 nanoseconds later than the offset asks for, more than 2^63
    nanoseconds less a second after the construction time. *)
Theorem EveryWithInitial_offset_overflow
  (d initial : Duration) (t0 : Time) :
  Int64.min <= initial -> initial < Int64.min + Nanosecond_of t0 ->
  StartTime (EveryWithInitial d initial t0) = Truncate t0 + initial + 2 ^ 64
  /\ t0 + (Int64.max - Second) < StartTime (EveryWithInitial d initial t0).
Proof.
  intros Hlo Hhi. pose proof (Nanosecond_of_range t0) as Hn.
  unfold EveryWithInitial, StartTime, Int64.sub, Int64.rem, Add.
  rewrite Z.rem_small by exact Hn.
  assert (E : Int64.wrap (initial - Nanosecond_of t0)
              = initial - Nanosecond_of t0 + 2 ^ 64).
  { unfold Int64.wrap, Int64.min, Second in *.
    replace (initial - Nanosecond_of t0 + 2 ^ 63)
      with (initial - Nanosecond_of t0 + 2 ^ 64 + 2 ^ 63 + (-1) * 2 ^ 64)
      by lia.
    rewrite Z.mod_add by lia. rewrite Z.mod_small; lia. }
  rewrite E, Truncate_eq. unfold Int64.min, Int64.max, Second in *. lia.
Qed.

Lemma EveryWithInitial_offset_overflow_witness :
  Int64.min <= -9223372036854775808
  /\ -9223372036854775808 < Int64.min + Nanosecond_of 7000000420
  /\ StartTime (EveryWithInitial 5000000000 (-9223372036854775808) 7000000420)
     = Truncate 7000000420 + -9223372036854775808 + 2 ^ 64.
Proof.
  assert (H1 : Int64.min <= -9223372036854775808)
    by (unfold Int64.min; lia).
  assert (H2 : -9223372036854775808 < Int64.min + Nanosecond_of 7000000420)
    by (unfold Int64.min; cbn; lia).
  split; [ exact H1 | ]. split; [ exact H2 | ].
  apply (EveryWithInitial_offset_overflow
           5000000000 (-9223372036854775808) 7000000420 H1 H2).
Defined.

(** X9. [EveryWithRandInitial] panics with a division by zero exactly for
    the requested durations strictly between -1s and 1s, whatever the clock
    and the draw. *)
Theorem EveryWithRandInitial_panics_iff (d : Duration) (now : Time) (r : Z) :
  Int64.InRange d ->
  (EveryWithRandInitial d now r = PanicDivideByZero <-> - Second < d < Second).
Proof.
  intros Hr. rewrite <- (randDivisor_zero_iff d Hr).
  unfold EveryWithRandInitial.
  destruct (Z.eqb_spec (randDivisor d) 0) as [H0 | H0].
  - split; [ intros _; exact H0 | reflexivity ].
  - split; [ discriminate | contradiction ].
Qed.

Lemma EveryWithRandInitial_panics_iff_witness :
  Int64.InRange 999999999
  /\ EveryWithRandInitial 999999999 1700000000123456789 12345
     = PanicDivideByZero.
Proof.
  assert (H : Int64.InRange 999999999)
    by (unfold Int64.InRange, Int64.min, Int64.max; lia).
  split; [ exact H | ].
  apply (EveryWithRandInitial_panics_iff 999999999 1700000000123456789 12345 H).
  unfold Second. lia.
Defined.

(** X10. For a requested duration from 1s up to 2^23 seconds the schedule
    of [EveryWithRandInitial] starts within one interval after the
    construction time [t0]: at [t0] truncated to the second plus a whole
    number of seconds between 1 and the number of seconds of the interval,
    picked by the draw modulo that number. *)
Theorem EveryWithRandInitial_window (d : Duration) (t0 : Time) (r : Z) :
  Second <= d < 2 ^ 23 * Second -> 0 <= r ->
  exists s : ConstantDelaySchedule,
    EveryWithRandInitial d t0 r = Returns s
    /\ Delay s = Delay (Every d)
    /\ StartTime s
       = Truncate t0
         + (Delay s / Second - Z.rem r (Delay s / Second)) * Second
    /\ 0 <= Z.rem r (Delay s / Second) < Delay s / Second
    /\ t0 < StartTime s <= t0 + Delay s.
Proof.
  intros Hd Hr0. unfold Second in Hd.
  assert (Hr : Int64.InRange d)
    by (unfold Int64.InRange, Int64.min, Int64.max; lia).
  assert (HD : Delay (Every d) = Second * (d / Second))
    by (apply Every_Delay_pos; unfold Second, Int64.max; lia).
  assert (Hn : randDivisor d = d / Second).
  { rewrite randDivisor_small; [ | exact Hr | unfold Second; lia ].
    unfold Second. apply Z.quot_div_nonneg; lia. }
  assert (Hq : 1 <= d / Second)
    by (apply Z.div_le_lower_bound; unfold Second; lia).
  destruct (EveryWithRandInitial_returns d t0 r Hr) as [E Hk];
    [ lia | exact Hr0 | ].
  rewrite Hn in E, Hk.
  eexists. split; [ exact E | ]. cbn [Delay StartTime].
  assert (Hdiv : Delay (Every d) / Second = d / Second).
  { rewrite HD, Z.mul_comm. apply Z.div_mul. unfold Second. lia. }
  rewrite Hdiv.
  pose proof (Nanosecond_of_range t0) as Hns.
  rewrite Truncate_eq, HD. unfold Second in *.
  split; [ reflexivity | ]. split; [ lia | ]. split; [ lia | ]. lia.
Qed.

Lemma EveryWithRandInitial_window_witness :
  Second <= 5700000000 < 2 ^ 23 * Second /\ 0 <= 12345
  /\ exists s : ConstantDelaySchedule,
       EveryWithRandInitial 5700000000 1700000000123456789 12345 = Returns s
       /\ 1700000000123456789 < StartTime s
          <= 1700000000123456789 + Delay s.
Proof.
  assert (H1 : Second <= 5700000000 < 2 ^ 23 * Second)
    by (unfold Second; lia).
  split; [ exact H1 | ]. split; [ lia | ].
  destruct (EveryWithRandInitial_window
              5700000000 1700000000123456789 12345 H1 ltac:(lia))
    as (s & E & _ & _ & _ & Hw).
  exists s. split; [ exact E | exact Hw ].
Defined.

(** X11. For every requested duration of a second or more
    [EveryWithRandInitial] returns a schedule whose start time is on a whole
    second, not before the second of the construction time and at most one
    interval after it. *)
Theorem EveryWithRandInitial_start_bounds (d : Duration) (t0 : Time) (r : Z) :
  Int64.InRange d -> Second <= d -> 0 <= r ->
  exists s : ConstantDelaySchedule,
    EveryWithRandInitial d t0 r = Returns s
    /\ Delay s = Delay (Every d)
    /\ Nanosecond_of (StartTime s) = 0
    /\ Truncate t0 <= StartTime s <= Truncate t0 + Delay s.
Proof.
  intros Hr Hd Hr0.
  destruct (randDivisor_pos_bounds d Hr Hd) as ((Hq & Hlo) & Hhi).
  assert (HD : Delay (Every d) = Second * (d / Second))
    by (apply Every_Delay_pos; split; [ exact Hd | apply Hr ]).
  destruct (EveryWithRandInitial_returns d t0 r Hr) as [E Hk];
    [ lia | exact Hr0 | ].
  eexists. split; [ exact E | ]. cbn [Delay StartTime].
  split; [ reflexivity | ].
  set (k := Z.rem r (randDivisor d)) in *.
  rewrite HD. split.
  - replace (Truncate t0 + Second * (d / Second) - k * Second)
      with (Truncate t0 + (d / Second - k) * Second) by ring.
    rewrite Nanosecond_of_add_seconds. apply Nanosecond_of_Truncate.
  - unfold Second in *. lia.
Qed.

Lemma EveryWithRandInitial_start_bounds_witness :
  Int64.InRange 9000000000000000000 /\ Second <= 9000000000000000000
  /\ 0 <= 12345
  /\ exists s : ConstantDelaySchedule,
       EveryWithRandInitial 9000000000000000000 1700000000123456789 12345
       = Returns s
       /\ Truncate 1700000000123456789 <= StartTime s
          <= Truncate 1700000000123456789 + Delay s.
Proof.
  assert (H1 : Int64.InRange 9000000000000000000)
    by (unfold Int64.InRange, Int64.min, Int64.max; lia).
  assert (H2 : Second <= 9000000000000000000) by (unfold Second; lia).
  split; [ exact H1 | ]. split; [ exact H2 | ]. split; [ lia | ].
  destruct (EveryWithRandInitial_start_bounds
              9000000000000000000 1700000000123456789 12345 H1 H2 ltac:(lia))
    as (s & E & _ & _ & Hw).
  exists s. split; [ exact E | exact Hw ].
Defined.

(** X12. For a negative requested duration from -1s down to -2^23 seconds
    [EveryWithRandInitial] does not panic: the interval is one second, and
    the start time is the second after the construction time or up to the
    magnitude of the duration earlier, so it can lie in the past. *)
Theorem EveryWithRandInitial_negative_duration
  (d : Duration) (t0 : Time) (r : Z) :
  - (2 ^ 23 * Second) < d <= - Second -> 0 <= r ->
  exists s : ConstantDelaySchedule,
    EveryWithRandInitial d t0 r = Returns s
    /\ Delay s = Second
    /\ StartTime s
       = Truncate t0 + (1 - Z.rem r (Z.quot d Second)) * Second
    /\ Truncate t0 + d + Second < StartTime s <= Truncate t0 + Second.
Proof.
  intros Hd Hr0. unfold Second in Hd.
  assert (Hr : Int64.InRange d)
    by (unfold Int64.InRange, Int64.min, Int64.max; lia).
  assert (HD : Delay (Every d) = Second)
    by (apply Every_subsecond_delay; unfold Second; lia).
  assert (Hn : randDivisor d = Z.quot d Second)
    by (apply randDivisor_small; [ exact Hr | unfold Second; lia ]).
  destruct (quot_rem_Second d Hr) as (_ & Hqr & _ & Hneg).
  specialize (Hneg ltac:(lia)).
  destruct (EveryWithRandInitial_returns d t0 r Hr) as [E Hk];
    [ rewrite Hn; unfold Second; lia | exact Hr0 | ].
  rewrite Hn in E, Hk. rewrite HD in E.
  eexists. split; [ exact E | ]. cbn [Delay StartTime].
  split; [ reflexivity | ].
  unfold Second in *. split; [ lia | lia ].
Qed.

Lemma EveryWithRandInitial_negative_duration_witness :
  - (2 ^ 23 * Second) < -5000000000 <= - Second /\ 0 <= 12344
  /\ exists s : ConstantDelaySchedule,
       EveryWithRandInitial (-5000000000) 1700000000123456789 12344
       = Returns s
       /\ Delay s = Second
       /\ StartTime s <= Truncate 1700000000123456789 + Second.
Proof.
  assert (H1 : - (2 ^ 23 * Second) < -5000000000 <= - Second)
    by (unfold Second; lia).
  split; [ exact H1 | ]. split; [ lia | ].
  destruct (EveryWithRandInitial_negative_duration
              (-5000000000) 1700000000123456789 12344 H1 ltac:(lia))
    as (s & E & HD & _ & _ & Hw).
  exists s. split; [ exact E | ]. split; [ exact HD | exact Hw ].
Defined.

(** X13. [Every] normalises: building a schedule from the interval of a
    schedule that [Every] built gives that schedule again. *)
Theorem Every_idempotent (d : Duration) :
  d <= Int64.max -> Every (Delay (Every d)) = Every d.
Proof.
  intros Hd.
  destruct (Every_Delay_bounds d Hd) as ((HD1 & HD2) & Hmod & _).
  assert (E : Delay (Every (Delay (Every d))) = Delay (Every d)).
  { rewrite (Every_Delay (Delay (Every d))) by exact HD2.
    rewrite Z.max_l by exact HD1.
    pose proof (Z.div_mod (Delay (Every d)) Second ltac:(unfold Second; lia)).
    lia. }
  change (Every (Delay (Every d)))
    with (mkSchedule (Delay (Every (Delay (Every d)))) (Unix 0 0)).
  rewrite E. reflexivity.
Qed.

Lemma Every_idempotent_witness :
  5700000000 <= Int64.max
  /\ Every (Delay (Every 5700000000)) = Every 5700000000.
Proof.
  assert (H : 5700000000 <= Int64.max) by (unfold Int64.max; lia).
  split; [ exact H | ].
  apply (Every_idempotent 5700000000 H).
Defined.



(** X15. Every answer of [Next] for a schedule built by [EveryWithInitial]
    with an offset of whole seconds (not within a second of the smallest
    int64) is on a whole second, whatever the sub-second part of the
    construction time. *)
Theorem Next_EveryWithInitial_on_the_second
  (d initial : Duration) (t0 t : Time) :
  Int64.InRange d -> Int64.min + Second <= initial <= Int64.max ->
  initial mod Second = 0 ->
  Nanosecond_of (Next (EveryWithInitial d initial t0) t) = 0.
Proof.
  intros Hr Hi Hmod.
  apply Next_EveryWithInitial_whole_second; assumption.
Qed.

Lemma Next_EveryWithInitial_on_the_second_witness :
  Int64.InRange 5000000000
  /\ Int64.min + Second <= 10000000000 <= Int64.max
  /\ 10000000000 mod Second = 0
  /\ Nanosecond_of
       (Next (EveryWithInitial 5000000000 10000000000 7000000420) 8000000001)
     = 0.
Proof.
  assert (H1 : Int64.InRange 5000000000)
    by (unfold Int64.InRange, Int64.min, Int64.max; lia).
  assert (H2 : Int64.min + Second <= 10000000000 <= Int64.max)
    by (unfold Int64.min, Int64.max, Second; lia).
  assert (H3 : 10000000000 mod Second = 0) by reflexivity.
  split; [ exact H1 | ]. split; [ exact H2 | ]. split; [ exact H3 | ].
  apply (Next_EveryWithInitial_on_the_second
           5000000000 10000000000 7000000420 8000000001 H1 H2 H3).
Defined.

(** X16. The random offset spreads over the whole interval: for a requested
    duration from 1s up to 2^23 seconds, every whole second from 1 to the
    number of seconds of the interval after the truncated construction time
    is the start time for some draw. *)
Theorem EveryWithRandInitial_every_second_reachable
  (d : Duration) (t0 : Time) (j : Z) :
  Second <= d < 2 ^ 23 * Second -> 1 <= j <= Delay (Every d) / Second ->
  exists r : Z,
    0 <= r <= Int64.max
    /\ EveryWithRandInitial d t0 r
       = Returns (mkSchedule (Delay (Every d)) (Truncate t0 + j * Second)).
Proof.
  intros Hd Hj. unfold Second in Hd.
  assert (Hr : Int64.InRange d)
    by (unfold Int64.InRange, Int64.min, Int64.max; lia).
  assert (HD : Delay (Every d) = Second * (d / Second))
    by (apply Every_Delay_pos; unfold Second, Int64.max; lia).
  assert (Hdiv : Delay (Every d) / Second = d / Second).
  { rewrite HD, Z.mul_comm. apply Z.div_mul. unfold Second. lia. }
  assert (Hn : randDivisor d = d / Second).
  { rewrite randDivisor_small; [ | exact Hr | unfold Second; lia ].
    unfold Second. apply Z.quot_div_nonneg; lia. }
  rewrite Hdiv in Hj.
  assert (Hq : d / Second < 2 ^ 23)
    by (apply Z.div_lt_upper_bound; unfold Second; lia).
  exists (d / Second - j). split; [ unfold Int64.max; lia | ].
  destruct (EveryWithRandInitial_returns d t0 (d / Second - j) Hr) as [E _];
    [ lia | lia | ].
  rewrite E, Hn. rewrite Z.rem_small by lia.
  do 2 f_equal. rewrite HD at 1. ring.
Qed.

Lemma EveryWithRandInitial_every_second_reachable_witness :
  Second <= 60000000000 < 2 ^ 23 * Second
  /\ 1 <= 17 <= Delay (Every 60000000000) / Second
  /\ exists r : Z,
       0 <= r <= Int64.max
       /\ EveryWithRandInitial 60000000000 1700000000123456789 r
          = Returns (mkSchedule (Delay (Every 60000000000))
                       (Truncate 1700000000123456789 + 17 * Second)).
Proof.
  assert (H1 : Second <= 60000000000 < 2 ^ 23 * Second)
    by (unfold Second; lia).
  assert (H2 : 1 <= 17 <= Delay (Every 60000000000) / Second)
    by (cbn; lia).
  split; [ exact H1 | ]. split; [ exact H2 | ].
  apply (EveryWithRandInitial_every_second_reachable
           60000000000 1700000000123456789 17 H1 H2).
Defined.
